(** * Verification of [server_hard_drive_check.py]

    A shallow embedding of the directory indexer
    ([get_all_files_recursive]), of the reconciler
    ([compare_directories]) and of the command-line entry point
    ([__main__]) of [Davis_BABEL/server_hard_drive_check.py], followed
    by the properties the specification states about them.

    Conventions of the embedding:
    - a Python [str] is a [string]; comparison of strings is the
      lexicographic order on characters ([String.le]), as Python's;
    - a Python [int] holding a file size is a [Z]; counters that start
      at 0 and are only incremented are [nat];
    - a Python [dict] is an insertion-ordered association list with
      distinct keys ([PyDict]); a Python [set] of strings is a
      [gset string];
    - [print] appends to an output trace, exceptions are values: a
      computation is a pair of the trace it printed and either its
      result or the exception it raised ([IO]);
    - [print] itself raises when the console does not take the line:
      the indexer and the comparison come a second time, on a
      [Console] that says which lines it refuses ([print_on],
      [..._on]); the first is the second on the console that takes
      every line. *)

From Stdlib Require Import ZArith Ascii String.
From stdpp Require Import base list strings gmap sorting.

Local Open Scope string_scope.
Local Open Scope list_scope.
Local Open Scope Z_scope.

(** ** Strings and paths *)

(** [p.rfind(sep)]: the index of the last occurrence of [sep] in [p]
    ([None] where Python returns -1). *)
Fixpoint rfind (sep : ascii) (p : string) : option nat :=
  match p with
  | EmptyString => None
  | String c r =>
      match rfind sep r with
      | Some i => Some (S i)
      | None => if decide (c = sep) then Some 0%nat else None
      end
  end.

(** [p[i:]] and [p[:i]]. *)
Fixpoint str_drop (i : nat) (p : string) : string :=
  match i, p with
  | O, _ => p
  | S j, EmptyString => EmptyString
  | S j, String _ r => str_drop j r
  end.

Fixpoint str_take (i : nat) (p : string) : string :=
  match i, p with
  | O, _ => EmptyString
  | S j, EmptyString => EmptyString
  | S j, String c r => String c (str_take j r)
  end.

(** [os.sep] (POSIX). *)
Definition os_sep : string := "/".

(** [os.path.basename(p)] (posixpath):
    [i = p.rfind('/') + 1; return p[i:]]. *)
Definition basename (p : string) : string :=
  let i := match rfind "/"%char p with Some k => S k | None => O end in
  str_drop i p.

(** [str(relative_path.parent)] for a relative path as
    [Path.relative_to] returns it: everything before the last
    separator, ["."] when there is none. *)
Definition parent (p : string) : string :=
  match rfind "/"%char p with
  | Some k => str_take k p
  | None => "."
  end.

(** [s.startswith(prefix)]. *)
Definition startswith (s pre : string) : bool := String.prefix pre s.

(** [c * n] for a one-character string. *)
Fixpoint str_mul (c : ascii) (n : nat) : string :=
  match n with
  | O => EmptyString
  | S k => String c (str_mul c k)
  end.

(** ** Exceptions *)

(** The exceptions the program can meet.  [PermissionError] is a
    subclass of [OSError]; every class but [KeyboardInterrupt] is a
    subclass of [Exception]. *)
Inductive exn : Type :=
  | PermissionError
  | OSError            (* any other OSError *)
  | KeyError
  | IndexError
  | KeyboardInterrupt
  | RuntimeError.      (* any other subclass of Exception *)

Global Instance exn_eq_dec : EqDecision exn.
Proof. solve_decision. Defined.

Definition is_OSError (e : exn) : bool :=
  match e with PermissionError | OSError => true | _ => false end.

Definition is_PermissionError (e : exn) : bool :=
  match e with PermissionError => true | _ => false end.

Definition is_KeyboardInterrupt (e : exn) : bool :=
  match e with KeyboardInterrupt => true | _ => false end.

Definition is_Exception (e : exn) : bool :=
  match e with KeyboardInterrupt => false | _ => true end.

Inductive result (A : Type) : Type :=
  | Ok (a : A)
  | Raise (e : exn).
Arguments Ok {A} a.
Arguments Raise {A} e.

Global Instance result_eq_dec {A} `{EqDecision A} : EqDecision (result A).
Proof. solve_decision. Defined.

(** ** Python dictionaries *)

(** A [dict] keeps its keys in insertion order; assigning to a key that
    is present replaces the value in place. *)
Module PyDict.
Section PyDict.
Context {K V : Type} `{EqDecision K}.

Abbreviation t := (list (K * V)).

Definition empty : t := [].

(** [d.get(k)] *)
Fixpoint get (k : K) (d : t) : option V :=
  match d with
  | [] => None
  | (k', v) :: r => if decide (k = k') then Some v else get k r
  end.

(** [k in d] *)
Definition contains (k : K) (d : t) : bool :=
  match get k d with Some _ => true | None => false end.

(** [d[k] = v] *)
Fixpoint set_item (k : K) (v : V) (d : t) : t :=
  match d with
  | [] => [(k, v)]
  | (k', v') :: r =>
      if decide (k = k') then (k, v) :: r else (k', v') :: set_item k v r
  end.

(** [d[k]] *)
Definition getitem (k : K) (d : t) : result V :=
  match get k d with Some v => Ok v | None => Raise KeyError end.

(** [d.items()], [d.keys()], [len(d)] *)
Definition items (d : t) : list (K * V) := d.
Definition keys (d : t) : list K := d.*1.
Definition len (d : t) : nat := length d.

(** The dictionaries a program can build: no key twice. *)
Definition wf (d : t) : Prop := NoDup (keys d).
End PyDict.
Abbreviation t K V := (list (K * V)) (only parsing).
End PyDict.

(** [l[i]] *)
Definition list_getitem {A} (l : list A) (i : nat) : result A :=
  match l !! i with Some x => Ok x | None => Raise IndexError end.

(** ** Output and the [IO] monad *)

(** One constructor per kind of [print].  A line whose text is fixed by
    interpolating strings alone is [OLine] with that text; a line that
    formats numbers ([{n:,}], [{x:.1f}]) or an exception carries the
    formatted values instead. *)
Inductive Out : Type :=
  | OLine (text : string)
  (* get_all_files_recursive *)
  | ODiscovering (total_files : nat)
  | OFoundTotal (total_files : nat)
  | OProgress (filled_length current total : nat)
  | OFoundFile (relative_path : string) (file_size : Z)
  | OWarning (relative_path : string) (e : exn)
  | OProcessingDir (relative_path : string)
  | ONewline
  | OFoundSummary (files dirs : nat)
  | OSubdir (subdir : string) (file_count : nat)
  (* compare_directories *)
  | OMissing (filename : string) (size : Z)
  | OIdentical (filename server_path_match : string) (size : Z)
  | OIdenticalMulti (filename : string) (server_paths_match : list string)
                    (size : Z)
  | OSizeDiff (filename : string) (hard_drive_size : Z)
              (server_instances : list (string * Z))
  | OSummaryTotalHardDrive (n : nat)
  | OSummaryMissing (n : nat)
  | OSummarySizeDiff (n : nat)
  | OSummaryIdentical (n : nat)
  | OSummaryTotalServer (n : nat)
  | ODetailMissing (missing_file : string) (size : Z)
  | ODetailSizeDiff (mismatch_file : string) (hd_size : Z)
                    (server_instances : list (string * Z))
  (* __main__ *)
  | OErrPermission (e : exn)
  | OErrUnexpected (e : exn).

Definition IO (A : Type) : Type := list Out * result A.

Definition ret {A} (a : A) : IO A := ([], Ok a).

Definition bind {A B} (m : IO A) (f : A → IO B) : IO B :=
  match m with
  | (o, Ok a) => let '(o', r) := f a in (o ++ o', r)
  | (o, Raise e) => (o, Raise e)
  end.

(** [print] on a console that takes the line ([print_on] below is
    [print] on any console). *)
Definition print (o : Out) : IO unit := ([o], Ok tt).

(** A fallible query that prints nothing. *)
Definition lift {A} (r : result A) : IO A := ([], r).

(** [try: body  except <classes> as e: handler e] *)
Definition try_except {A} (body : IO A) (catches : exn → bool)
    (handler : exn → IO A) : IO A :=
  match body with
  | (o, Ok a) => (o, Ok a)
  | (o, Raise e) =>
      if catches e then let '(o', r) := handler e in (o ++ o', r)
      else (o, Raise e)
  end.

(** [IO] is a monad in stdpp's sense: [x ← m; k] runs [m], binds its
    result to [x] and continues with [k]; [m;; k] ignores the result. *)
Global Instance IO_ret : MRet IO := @ret.
Global Instance IO_bind : MBind IO := λ A B f m, bind m f.

(** [if c: body] with no [else]. *)
Definition when (c : bool) (body : IO unit) : IO unit :=
  if c then body else ret tt.

(** [for x in l: s = body s x], the loop variables threaded as [s]. *)
Fixpoint for_each {S X} (body : S → X → IO S) (s : S) (l : list X) : IO S :=
  match l with
  | [] => ret s
  | x :: r => s' ← body s x; for_each body s' r
  end.

Definition output {A} (m : IO A) : list Out := m.1.
Definition value {A} (m : IO A) : result A := m.2.

(** The result of a computation that returned. *)
Definition value_option {A} (m : IO A) : option A :=
  match value m with Ok a => Some a | Raise _ => None end.

(** ** [sorted] *)

(** Python compares tuples lexicographically: by the path first, by
    the size when the paths are equal. *)
Definition tuple_le (x y : string * Z) : Prop :=
  strict String.le x.1 y.1 ∨ (x.1 = y.1 ∧ x.2 ≤ y.2).

Global Instance tuple_le_dec : RelDecision tuple_le.
Proof. intros x y. unfold tuple_le. apply _. Defined.

(** [sorted(l)] on strings and on (path, size) tuples. *)
Definition sorted_strs (l : list string) : list string :=
  merge_sort String.le l.

Definition sorted_items (l : list (string * Z)) : list (string * Z) :=
  merge_sort tuple_le l.

(** ** The file system as [pathlib] shows it *)

Inductive FileType : Type :=
  | Regular | Directory | CharDevice | BlockDevice | Fifo | Socket.

(** A directory entry is a file of some type or a symbolic link; a link
    resolves to a file of some type, or to nothing when it dangles. *)
Inductive Entry : Type :=
  | Plain (t : FileType)
  | Symlink (target : option FileType).

Global Instance FileType_eq_dec : EqDecision FileType.
Proof. solve_decision. Defined.

(** What [stat()] finds at the path; it follows symbolic links. *)
Definition resolve (e : Entry) : option FileType :=
  match e with
  | Plain t => Some t
  | Symlink target => target
  end.

(** One path yielded by [directory.rglob('*')]. *)
Record Item : Type := {
  (* str(item.relative_to(directory)) *)
  item_rel : string;
  item_entry : Entry;
  (* an exception item.is_file() lets through: an OSError pathlib does
     not ignore (EACCES on a parent directory), an interrupt *)
  item_fault : option exn;
  (* item.stat().st_size, or the exception stat() raises *)
  item_stat : result Z
}.

(** [Path.is_file()]: "True if the path points to a regular file (or a
    symbolic link pointing to a regular file)". *)
Definition is_file (item : Item) : result bool :=
  match item_fault item with
  | Some e => Raise e
  | None => Ok (bool_decide (resolve (item_entry item) = Some Regular))
  end.

(** [Path.is_dir()]: "True if the path points to a directory (or a
    symbolic link pointing to a directory)". *)
Definition is_dir (item : Item) : result bool :=
  match item_fault item with
  | Some e => Raise e
  | None => Ok (bool_decide (resolve (item_entry item) = Some Directory))
  end.

Definition stat_st_size (item : Item) : result Z := item_stat item.

Record FileSystem : Type := {
  (* os.path.exists, os.path.isdir *)
  path_exists : string → bool;
  path_isdir : string → bool;
  (* list(Path(directory_path).rglob('*')) *)
  rglob : string → list Item
}.

(** ** [get_all_files_recursive] *)

Definition bar_width : nat := 50.

Definition update_progress_bar (current total : nat) : IO unit :=
  if decide (total = 0%nat) then ret tt
  else
    let filled_length := (bar_width * current / total)%nat in
    print (OProgress filled_length current total).

(** The variables the scanning loop updates. *)
Record ScanState : Type := {
  files_info : PyDict.t string Z;
  directories_processed : gset string;
  processed_files : nat
}.

(** Body of the first pass (lines 43-47). *)
Definition count_step (total_files : nat) (item : Item) : IO nat :=
  f ← lift (is_file item);
  if (f : bool) then
    let total_files := S total_files in
    when (bool_decide (total_files mod 100 = 0)%nat
          || bool_decide (total_files < 100)%nat)
      (print (ODiscovering total_files));;
    mret total_files
  else mret total_files.

(** Body of the second pass (lines 68-99).  With every line printed,
    only [stat()] raises inside [try], before anything is assigned, so
    the handler continues from the state the iteration started with
    ([scan_step_on] has the [print] of line 82 raise as well). *)
Definition scan_step (verbose : bool) (total_files : nat)
    (st : ScanState) (item_path : Item) : IO ScanState :=
  f ← lift (is_file item_path);
  if (f : bool) then
    let relative_path := item_rel item_path in
    st1 ← try_except
      (file_size ← lift (stat_st_size item_path);
       let files := PyDict.set_item relative_path file_size (files_info st) in
       let parent_dir := parent relative_path in
       let dirs := if decide (parent_dir ≠ ".")
                   then directories_processed st ∪ {[parent_dir]}
                   else directories_processed st in
       when verbose (print (OFoundFile relative_path file_size));;
       mret {| files_info := files;
               directories_processed := dirs;
               processed_files := processed_files st |})
      is_OSError
      (λ e, when verbose (print (OWarning relative_path e));; mret st);
    let processed := S (processed_files st1) in
    when (negb verbose) (update_progress_bar processed total_files);;
    mret {| files_info := files_info st1;
            directories_processed := directories_processed st1;
            processed_files := processed |}
  else
    d ← lift (is_dir item_path);
    if (d : bool) then
      let relative_path := item_rel item_path in
      when verbose (print (OProcessingDir relative_path));;
      mret {| files_info := files_info st;
              directories_processed :=
                directories_processed st ∪ {[relative_path]};
              processed_files := processed_files st |}
    else mret st.

Definition get_all_files_recursive (fs : FileSystem) (verbose : bool)
    (directory_path : string) : IO (PyDict.t string Z) :=
  print (OLine ("Scanning directory: " +:+ directory_path));;
  print (OLine "Counting files for progress tracking...");;
  total_files ← for_each count_step 0%nat (rglob fs directory_path);
  print (OFoundTotal total_files);;
  st ← for_each (scan_step verbose total_files)
         {| files_info := PyDict.empty;
            directories_processed := ∅;
            processed_files := 0 |}
         (rglob fs directory_path);
  when (negb verbose) (print ONewline);;
  print (OFoundSummary (PyDict.len (files_info st))
                       (size (directories_processed st)));;
  when (verbose && bool_decide (directories_processed st ≠ ∅))
    (print (OLine "  Subdirectories processed:");;
     for_each
       (λ _ subdir,
          let file_count :=
            length (filter (λ f, startswith f (subdir +:+ os_sep)
                                 || startswith f (subdir +:+ "/"))
                           (PyDict.keys (files_info st))) in
          print (OSubdir subdir file_count))
       tt (sorted_strs (elements (directories_processed st))));;
  mret (files_info st).

(** ** [compare_directories] *)

(** The counters and detail lists the comparison loop updates
    (lines 149-153). *)
Record Stats : Type := {
  missing_files : nat;
  size_mismatch_files : nat;
  identical_files : nat;
  missing_file_details : list (string * Z);
  mismatch_file_details : list (string * Z * list (string * Z))
}.

(** What the summary is printed from: the totals of both indexes and
    the loop's counters and lists. *)
Record Report : Type := {
  total_hard_drive : nat;
  stats : Stats;
  total_server : nat
}.

Definition nl : string := String "010"%char EmptyString.

(** Body of the loop that builds [server_files_by_name]
    (lines 142-146). *)
Definition index_step (server_files_by_name : PyDict.t string (list (string * Z)))
    (item : string * Z) : IO (PyDict.t string (list (string * Z))) :=
  let '(file_path, file_size) := item in
  let filename := basename file_path in
  let server_files_by_name :=
    if negb (PyDict.contains filename server_files_by_name)
    then PyDict.set_item filename [] server_files_by_name
    else server_files_by_name in
  entries ← lift (PyDict.getitem filename server_files_by_name);
  mret (PyDict.set_item filename (entries ++ [(file_path, file_size)])
          server_files_by_name).

(** Body of the comparison loop (lines 156-185).  The name index is
    not assigned to after it is built, so the list stored in
    [mismatch_file_details] keeps the value it had when stored. *)
Definition check_step (server_files_by_name : PyDict.t string (list (string * Z)))
    (st : Stats) (item : string * Z) : IO Stats :=
  let '(file_path, hard_drive_size) := item in
  let filename := basename file_path in
  print (OLine ("CHECKING: " +:+ file_path));;
  if negb (PyDict.contains filename server_files_by_name) then
    print (OMissing filename hard_drive_size);;
    mret {| missing_files := S (missing_files st);
            size_mismatch_files := size_mismatch_files st;
            identical_files := identical_files st;
            missing_file_details :=
              missing_file_details st ++ [(file_path, hard_drive_size)];
            mismatch_file_details := mismatch_file_details st |}
  else
    entries ← lift (PyDict.getitem filename server_files_by_name);
    let matching_files :=
      filter (λ entry : string * Z, entry.2 = hard_drive_size) entries in
    if bool_decide (matching_files ≠ []) then
      (if bool_decide (length matching_files = 1%nat) then
         entry ← lift (list_getitem matching_files 0);
         let server_path_match := (entry : string * Z).1 in
         print (OIdentical filename server_path_match hard_drive_size)
       else
         let server_paths_match := matching_files.*1 in
         print (OIdenticalMulti filename server_paths_match hard_drive_size));;
      mret {| missing_files := missing_files st;
              size_mismatch_files := size_mismatch_files st;
              identical_files := S (identical_files st);
              missing_file_details := missing_file_details st;
              mismatch_file_details := mismatch_file_details st |}
    else
      all_server_instances ← lift (PyDict.getitem filename server_files_by_name);
      print (OSizeDiff filename hard_drive_size all_server_instances);;
      mret {| missing_files := missing_files st;
              size_mismatch_files := S (size_mismatch_files st);
              identical_files := identical_files st;
              missing_file_details := missing_file_details st;
              mismatch_file_details :=
                mismatch_file_details st
                ++ [(file_path, hard_drive_size, all_server_instances)] |}.

(** The counters before the first source file. *)
Definition init_stats : Stats :=
  {| missing_files := 0; size_mismatch_files := 0; identical_files := 0;
     missing_file_details := []; mismatch_file_details := [] |}.

(** Lines 187-206: the summary and the detail lists. *)
Definition print_summary (hard_drive_files server_files : PyDict.t string Z)
    (st : Stats) : IO unit :=
  print (OLine (nl +:+ str_mul "=" 80));;
  print (OLine "SUMMARY:");;
  print (OSummaryTotalHardDrive (PyDict.len hard_drive_files));;
  print (OSummaryMissing (missing_files st));;
  print (OSummarySizeDiff (size_mismatch_files st));;
  print (OSummaryIdentical (identical_files st));;
  print (OSummaryTotalServer (PyDict.len server_files));;
  when (bool_decide (0 < missing_files st)%nat)
    (print (OLine (nl +:+ "Missing files details:"));;
     for_each (λ _ '(missing_file, size),
                 print (ODetailMissing missing_file size))
       tt (missing_file_details st));;
  when (bool_decide (0 < size_mismatch_files st)%nat)
    (print (OLine (nl +:+ "Size mismatch files details:"));;
     for_each (λ _ '(mismatch_file, hd_size, server_instances),
                 print (ODetailSizeDiff mismatch_file hd_size server_instances))
       tt (mismatch_file_details st)).

(** Lines 138-206: everything [compare_directories] does once both
    indexes are there.  The function returns nothing; the model
    returns what the summary was printed from. *)
Definition compare_indexes (hard_drive_files server_files : PyDict.t string Z)
    : IO Report :=
  print (OLine (nl +:+ "3. COMPARING FILES:"));;
  server_files_by_name ←
    for_each index_step PyDict.empty (PyDict.items server_files);
  st ← for_each (check_step server_files_by_name) init_stats
         (sorted_items (PyDict.items hard_drive_files));
  print_summary hard_drive_files server_files st;;
  mret {| total_hard_drive := PyDict.len hard_drive_files;
          stats := st;
          total_server := PyDict.len server_files |}.

Definition compare_directories (fs : FileSystem) (verbose : bool)
    (hard_drive_path server_path : string) : IO Report :=
  print (OLine (nl +:+ "Comparing files between:"));;
  print (OLine ("Hard Drive: " +:+ hard_drive_path));;
  print (OLine ("Server Directory: " +:+ server_path));;
  print (OLine (str_mul "=" 80));;
  print (OLine (nl +:+ "1. SCANNING HARD DRIVE:"));;
  hard_drive_files ← get_all_files_recursive fs verbose hard_drive_path;
  print (OLine (str_mul "-" 80));;
  print (OLine (nl +:+ "2. SCANNING SERVER DIRECTORY:"));;
  server_files ← get_all_files_recursive fs verbose server_path;
  print (OLine (str_mul "=" 80));;
  compare_indexes hard_drive_files server_files.

(** ** [__main__] *)

(** The parsed command line. *)
Record Args : Type := {
  hard_drive_path : string;
  server_path : string;
  verbose : bool
}.

(** The error lines of the path validation. *)
Definition err_hard_drive_not_exist (p : string) : string :=
  "ERROR: Hard drive path '" +:+ p +:+ "' does not exist.".
Definition err_server_not_exist (p : string) : string :=
  "ERROR: Server directory path '" +:+ p +:+ "' does not exist.".
Definition err_both_not_exist : string :=
  "ERROR: Both directory paths do not exist.".
Definition err_hard_drive_not_dir (p : string) : string :=
  "ERROR: Hard drive path '" +:+ p +:+ "' is not a directory.".
Definition err_server_not_dir (p : string) : string :=
  "ERROR: Server directory path '" +:+ p +:+ "' is not a directory.".
Definition err_both_not_dir : string :=
  "ERROR: The paths entered are not directories.".

(** The script from line 243 on: what it prints and the status the
    process exits with ([sys.exit(1)] on the error paths, 0 when the
    script runs off its end; an exception no handler takes would end
    the interpreter with status 1 too). *)
Definition main (fs : FileSystem) (args : Args) : list Out * Z :=
  let hard_drive_file_path := hard_drive_path args in
  let server_file_path := server_path args in
  if negb (path_exists fs hard_drive_file_path
           && path_exists fs server_file_path) then
    if negb (path_exists fs hard_drive_file_path) then
      ([OLine (err_hard_drive_not_exist hard_drive_file_path)], 1)
    else if negb (path_exists fs server_file_path) then
      ([OLine (err_server_not_exist server_file_path)], 1)
    else
      ([OLine err_both_not_exist], 1)
  else if negb (path_isdir fs hard_drive_file_path
                && path_isdir fs server_file_path) then
    if negb (path_isdir fs hard_drive_file_path) then
      ([OLine (err_hard_drive_not_dir hard_drive_file_path)], 1)
    else if negb (path_isdir fs server_file_path) then
      ([OLine (err_server_not_dir server_file_path)], 1)
    else
      ([OLine err_both_not_dir], 1)
  else
    match compare_directories fs (verbose args)
            hard_drive_file_path server_file_path with
    | (o, Ok _) => (o, 0)
    | (o, Raise e) =>
        if is_PermissionError e then
          (o ++ [OErrPermission e], 1)
        else if is_KeyboardInterrupt e then
          (o ++ [OLine (nl +:+ "Operation cancelled by user.")], 1)
        else if is_Exception e then
          (o ++ [OErrUnexpected e], 1)
        else (o, 1)
    end.

Definition exit_status (r : list Out * Z) : Z := r.2.

(** ** The console *)

(** [print] raises when the console does not take the line:
    [UnicodeEncodeError] on a file name that the encoding of stdout
    cannot express, [BrokenPipeError] when its reader is gone.  A
    console tells, for each line, the exception that printing it
    raises, if any; a line it refuses is not shown.  [print] above is
    [print_on] the console that takes every line, and the functions
    above are the functions below on that console. *)
Definition Console : Type := Out → option exn.

Definition accepting : Console := λ _, None.

Definition print_on (console : Console) (o : Out) : IO unit :=
  match console o with
  | None => ([o], Ok tt)
  | Some e => ([], Raise e)
  end.

Definition update_progress_bar_on (console : Console) (current total : nat)
    : IO unit :=
  if decide (total = 0%nat) then ret tt
  else
    let filled_length := (bar_width * current / total)%nat in
    print_on console (OProgress filled_length current total).

(** Lines 43-47. *)
Definition count_step_on (console : Console) (total_files : nat) (item : Item)
    : IO nat :=
  f ← lift (is_file item);
  if (f : bool) then
    let total_files := S total_files in
    when (bool_decide (total_files mod 100 = 0)%nat
          || bool_decide (total_files < 100)%nat)
      (print_on console (ODiscovering total_files));;
    mret total_files
  else mret total_files.

(** Lines 68-99.  [stat()] (line 73) raises before anything is
    assigned, so its handler continues from the state the iteration
    started with; the [print] of line 82 raises after the assignments
    of lines 74-79, so its handler continues from the state they
    leave.  An exception the handler's own [print] (line 86) raises is
    not handled. *)
Definition scan_step_on (console : Console) (verbose : bool) (total_files : nat)
    (st : ScanState) (item_path : Item) : IO ScanState :=
  f ← lift (is_file item_path);
  if (f : bool) then
    let relative_path := item_rel item_path in
    let handler (st_raised : ScanState) (e : exn) : IO ScanState :=
      when verbose (print_on console (OWarning relative_path e));;
      mret st_raised in
    st1 ← match stat_st_size item_path with
          | Raise e => try_except (lift (Raise e)) is_OSError (handler st)
          | Ok file_size =>
              let files :=
                PyDict.set_item relative_path file_size (files_info st) in
              let parent_dir := parent relative_path in
              let dirs := if decide (parent_dir ≠ ".")
                          then directories_processed st ∪ {[parent_dir]}
                          else directories_processed st in
              let st_assigned :=
                {| files_info := files;
                   directories_processed := dirs;
                   processed_files := processed_files st |} in
              try_except
                (when verbose
                   (print_on console (OFoundFile relative_path file_size));;
                 mret st_assigned)
                is_OSError (handler st_assigned)
          end;
    let processed := S (processed_files st1) in
    when (negb verbose)
      (update_progress_bar_on console processed total_files);;
    mret {| files_info := files_info st1;
            directories_processed := directories_processed st1;
            processed_files := processed |}
  else
    d ← lift (is_dir item_path);
    if (d : bool) then
      let relative_path := item_rel item_path in
      when verbose (print_on console (OProcessingDir relative_path));;
      mret {| files_info := files_info st;
              directories_processed :=
                directories_processed st ∪ {[relative_path]};
              processed_files := processed_files st |}
    else mret st.

(** Lines 29-114. *)
Definition get_all_files_recursive_on (console : Console) (fs : FileSystem)
    (verbose : bool) (directory_path : string) : IO (PyDict.t string Z) :=
  print_on console (OLine ("Scanning directory: " +:+ directory_path));;
  print_on console (OLine "Counting files for progress tracking...");;
  total_files ← for_each (count_step_on console) 0%nat
                  (rglob fs directory_path);
  print_on console (OFoundTotal total_files);;
  st ← for_each (scan_step_on console verbose total_files)
         {| files_info := PyDict.empty;
            directories_processed := ∅;
            processed_files := 0 |}
         (rglob fs directory_path);
  when (negb verbose) (print_on console ONewline);;
  print_on console (OFoundSummary (PyDict.len (files_info st))
                                  (size (directories_processed st)));;
  when (verbose && bool_decide (directories_processed st ≠ ∅))
    (print_on console (OLine "  Subdirectories processed:");;
     for_each
       (λ _ subdir,
          let file_count :=
            length (filter (λ f, startswith f (subdir +:+ os_sep)
                                 || startswith f (subdir +:+ "/"))
                           (PyDict.keys (files_info st))) in
          print_on console (OSubdir subdir file_count))
       tt (sorted_strs (elements (directories_processed st))));;
  mret (files_info st).

(** Lines 156-185. *)
Definition check_step_on (console : Console)
    (server_files_by_name : PyDict.t string (list (string * Z)))
    (st : Stats) (item : string * Z) : IO Stats :=
  let '(file_path, hard_drive_size) := item in
  let filename := basename file_path in
  print_on console (OLine ("CHECKING: " +:+ file_path));;
  if negb (PyDict.contains filename server_files_by_name) then
    print_on console (OMissing filename hard_drive_size);;
    mret {| missing_files := S (missing_files st);
            size_mismatch_files := size_mismatch_files st;
            identical_files := identical_files st;
            missing_file_details :=
              missing_file_details st ++ [(file_path, hard_drive_size)];
            mismatch_file_details := mismatch_file_details st |}
  else
    entries ← lift (PyDict.getitem filename server_files_by_name);
    let matching_files :=
      filter (λ entry : string * Z, entry.2 = hard_drive_size) entries in
    if bool_decide (matching_files ≠ []) then
      (if bool_decide (length matching_files = 1%nat) then
         entry ← lift (list_getitem matching_files 0);
         let server_path_match := (entry : string * Z).1 in
         print_on console
           (OIdentical filename server_path_match hard_drive_size)
       else
         let server_paths_match := matching_files.*1 in
         print_on console
           (OIdenticalMulti filename server_paths_match hard_drive_size));;
      mret {| missing_files := missing_files st;
              size_mismatch_files := size_mismatch_files st;
              identical_files := S (identical_files st);
              missing_file_details := missing_file_details st;
              mismatch_file_details := mismatch_file_details st |}
    else
      all_server_instances ← lift (PyDict.getitem filename server_files_by_name);
      print_on console (OSizeDiff filename hard_drive_size all_server_instances);;
      mret {| missing_files := missing_files st;
              size_mismatch_files := S (size_mismatch_files st);
              identical_files := identical_files st;
              missing_file_details := missing_file_details st;
              mismatch_file_details :=
                mismatch_file_details st
                ++ [(file_path, hard_drive_size, all_server_instances)] |}.

(** Lines 187-206. *)
Definition print_summary_on (console : Console)
    (hard_drive_files server_files : PyDict.t string Z) (st : Stats)
    : IO unit :=
  print_on console (OLine (nl +:+ str_mul "=" 80));;
  print_on console (OLine "SUMMARY:");;
  print_on console (OSummaryTotalHardDrive (PyDict.len hard_drive_files));;
  print_on console (OSummaryMissing (missing_files st));;
  print_on console (OSummarySizeDiff (size_mismatch_files st));;
  print_on console (OSummaryIdentical (identical_files st));;
  print_on console (OSummaryTotalServer (PyDict.len server_files));;
  when (bool_decide (0 < missing_files st)%nat)
    (print_on console (OLine (nl +:+ "Missing files details:"));;
     for_each (λ _ '(missing_file, size),
                 print_on console (ODetailMissing missing_file size))
       tt (missing_file_details st));;
  when (bool_decide (0 < size_mismatch_files st)%nat)
    (print_on console (OLine (nl +:+ "Size mismatch files details:"));;
     for_each (λ _ '(mismatch_file, hd_size, server_instances),
                 print_on console
                   (ODetailSizeDiff mismatch_file hd_size server_instances))
       tt (mismatch_file_details st)).

(** Lines 138-206. *)
Definition compare_indexes_on (console : Console)
    (hard_drive_files server_files : PyDict.t string Z) : IO Report :=
  print_on console (OLine (nl +:+ "3. COMPARING FILES:"));;
  server_files_by_name ←
    for_each index_step PyDict.empty (PyDict.items server_files);
  st ← for_each (check_step_on console server_files_by_name) init_stats
         (sorted_items (PyDict.items hard_drive_files));
  print_summary_on console hard_drive_files server_files st;;
  mret {| total_hard_drive := PyDict.len hard_drive_files;
          stats := st;
          total_server := PyDict.len server_files |}.

(** Lines 117-206. *)
Definition compare_directories_on (console : Console) (fs : FileSystem)
    (verbose : bool) (hard_drive_path server_path : string) : IO Report :=
  print_on console (OLine (nl +:+ "Comparing files between:"));;
  print_on console (OLine ("Hard Drive: " +:+ hard_drive_path));;
  print_on console (OLine ("Server Directory: " +:+ server_path));;
  print_on console (OLine (str_mul "=" 80));;
  print_on console (OLine (nl +:+ "1. SCANNING HARD DRIVE:"));;
  hard_drive_files ←
    get_all_files_recursive_on console fs verbose hard_drive_path;
  print_on console (OLine (str_mul "-" 80));;
  print_on console (OLine (nl +:+ "2. SCANNING SERVER DIRECTORY:"));;
  server_files ← get_all_files_recursive_on console fs verbose server_path;
  print_on console (OLine (str_mul "=" 80));;
  compare_indexes_on console hard_drive_files server_files.

(** A computation on a console and the same computation with every
    line printed: whenever the first returns, it has printed and
    returned what the second does ([returns_as]), or at least returned
    what the second returns ([returns_value]). *)
Definition returns_as {A} (m_on m : IO A) : Prop :=
  ∀ a, value m_on = Ok a → m_on = m.

Definition returns_value {A} (m_on m : IO A) : Prop :=
  ∀ a, value m_on = Ok a → value m = Ok a.

(** ** The reconciliation the specification describes (§4.2) *)

(** ComparisonOutcome of the specification's data model. *)
Inductive Outcome : Type :=
  | Missing
  | SizeMatch (matches : list (string * Z))
  | SizeMismatch (candidates : list (string * Z)).

(** NameIndex, as a function: the target entries whose basename is
    [filename], in the order of the target index. *)
Definition same_name (server_files : PyDict.t string Z) (filename : string)
    : list (string * Z) :=
  filter (λ entry : string * Z, basename entry.1 = filename) server_files.

(** Step 2 of the algorithm: look the basename up, filter the
    candidates on size. *)
Definition classify (server_files : PyDict.t string Z) (item : string * Z)
    : Outcome :=
  let candidates := same_name server_files (basename item.1) in
  if decide (candidates = []) then Missing
  else
    let matches := filter (λ entry : string * Z, entry.2 = item.2) candidates in
    if decide (matches = []) then SizeMismatch candidates
    else SizeMatch matches.

(** Step 3: counts per outcome, detail lists for Missing and
    SizeMismatch. *)
Definition tally (st : Stats) (item : string * Z) (o : Outcome) : Stats :=
  match o with
  | Missing =>
      {| missing_files := S (missing_files st);
         size_mismatch_files := size_mismatch_files st;
         identical_files := identical_files st;
         missing_file_details := missing_file_details st ++ [item];
         mismatch_file_details := mismatch_file_details st |}
  | SizeMatch _ =>
      {| missing_files := missing_files st;
         size_mismatch_files := size_mismatch_files st;
         identical_files := S (identical_files st);
         missing_file_details := missing_file_details st;
         mismatch_file_details := mismatch_file_details st |}
  | SizeMismatch candidates =>
      {| missing_files := missing_files st;
         size_mismatch_files := S (size_mismatch_files st);
         identical_files := identical_files st;
         missing_file_details := missing_file_details st;
         mismatch_file_details :=
           mismatch_file_details st ++ [(item, candidates)] |}
  end.

(** Steps 2-3 over the source files in the order given. *)
Definition reconcile (server_files : PyDict.t string Z)
    (st : Stats) (l : list (string * Z)) : Stats :=
  foldl (λ st item, tally st item (classify server_files item)) st l.

Definition is_Missing (o : Outcome) : bool :=
  match o with Missing => true | _ => false end.
Definition is_SizeMatch (o : Outcome) : bool :=
  match o with SizeMatch _ => true | _ => false end.
Definition is_SizeMismatch (o : Outcome) : bool :=
  match o with SizeMismatch _ => true | _ => false end.

(** The outcome a line of the comparison trace reports: MISSING,
    IDENTICAL with the path or paths it lists (each of the size it
    prints), SIZE_DIFF with the server instances it lists.  Other
    lines report none. *)
Definition reported (line : Out) : option Outcome :=
  match line with
  | OMissing _ _ => Some Missing
  | OIdentical _ server_path_match size =>
      Some (SizeMatch [(server_path_match, size)])
  | OIdenticalMulti _ server_paths_match size =>
      Some (SizeMatch ((λ p, (p, size)) <$> server_paths_match))
  | OSizeDiff _ _ server_instances => Some (SizeMismatch server_instances)
  | _ => None
  end.

(** The two lines the comparison prints for one source file. *)
Definition checking (item : string * Z) (line : Out) : list Out :=
  [OLine ("CHECKING: " +:+ item.1); line].

(** [idx] is the name index of the entries [l]. *)
Definition name_index_of (l : PyDict.t string Z)
    (idx : PyDict.t string (list (string * Z))) : Prop :=
  ∀ name, PyDict.get name idx =
          if decide (same_name l name = []) then None
          else Some (same_name l name).

(** ** The index the specification describes (§4.1) *)

(** The FileRecord an entry contributes: its relative path and size
    when it is a regular file whose size can be read. *)
Definition recorded (item : Item) : option (string * Z) :=
  match is_file item, item_stat item with
  | Ok true, Ok size => Some (item_rel item, size)
  | _, _ => None
  end.

(** The first exception the counting pass meets. *)
Fixpoint first_fault (l : list Item) : option exn :=
  match l with
  | [] => None
  | item :: r =>
      match item_fault item with
      | Some e => Some e
      | None => first_fault r
      end
  end.

(** The index after the entries [l], starting from [d]: a regular
    file is inserted, a file whose size query fails with an [OSError]
    is skipped, any other exception ends the scan. *)
Fixpoint index_from (d : PyDict.t string Z) (l : list Item)
    : result (PyDict.t string Z) :=
  match l with
  | [] => Ok d
  | item :: r =>
      match is_file item with
      | Raise e => Raise e
      | Ok true =>
          match item_stat item with
          | Ok size => index_from (PyDict.set_item (item_rel item) size d) r
          | Raise e => if is_OSError e then index_from d r else Raise e
          end
      | Ok false => index_from d r
      end
  end.

Definition scan_result (l : list Item) : result (PyDict.t string Z) :=
  match first_fault l with
  | Some e => Raise e
  | None => index_from PyDict.empty l
  end.

(** An entry the scan gets past: no query on it raises, but for a
    size query that fails with an [OSError]. *)
Definition scannable (item : Item) : Prop :=
  item_fault item = None
  ∧ (is_file item = Ok true →
     match item_stat item with
     | Ok _ => True
     | Raise e => is_OSError e = true
     end).

Definition is_warning (o : Out) : bool :=
  match o with OWarning _ _ => true | _ => false end.

(** A line of one of the two combined error branches of the path
    validation. *)
Definition is_combined_error (o : Out) : Prop :=
  o = OLine err_both_not_exist ∨ o = OLine err_both_not_dir.

(** ** Example trees *)

Definition regular (rel : string) (size : Z) : Item :=
  {| item_rel := rel; item_entry := Plain Regular;
     item_fault := None; item_stat := Ok size |}.

Definition directory (rel : string) : Item :=
  {| item_rel := rel; item_entry := Plain Directory;
     item_fault := None; item_stat := Ok 4096 |}.

(** A regular file whose [stat()] raises [e]. *)
Definition unreadable (rel : string) (e : exn) : Item :=
  {| item_rel := rel; item_entry := Plain Regular;
     item_fault := None; item_stat := Raise e |}.

(** A symbolic link to a regular file of [size] bytes. *)
Definition link_to_file (rel : string) (size : Z) : Item :=
  {| item_rel := rel; item_entry := Symlink (Some Regular);
     item_fault := None; item_stat := Ok size |}.

(** A file under a directory the user may not search: [is_file()]
    raises [PermissionError]. *)
Definition forbidden (rel : string) : Item :=
  {| item_rel := rel; item_entry := Plain Regular;
     item_fault := Some PermissionError; item_stat := Raise PermissionError |}.

Definition hd_tree : list Item :=
  [regular "b.txt" 5; directory "sub"; regular "sub/a.txt" 100;
   unreadable "c" PermissionError].

Definition hd_tree_without_c : list Item :=
  [regular "b.txt" 5; directory "sub"; regular "sub/a.txt" 100].

Definition hd_tree_reordered : list Item :=
  [directory "sub"; regular "sub/a.txt" 100; regular "b.txt" 5;
   unreadable "c" PermissionError].

Definition server_tree : list Item :=
  [directory "x"; regular "x/a.txt" 100; directory "y"; regular "y/a.txt" 50;
   regular "b.txt" 6].

Definition example_trees (listing : string → list Item) : FileSystem :=
  {| path_exists p := bool_decide (p ≠ "/nowhere");
     path_isdir p := bool_decide (p ≠ "/nowhere" ∧ p ≠ "/etc/passwd");
     rglob := listing |}.

Definition example_listing (hd : list Item) (p : string) : list Item :=
  if decide (p = "/hd") then hd
  else if decide (p = "/server") then server_tree
  else if decide (p = "/links") then [link_to_file "link" 5; regular "f" 7]
  else if decide (p = "/locked") then [regular "f" 7; forbidden "d/g"]
  else if decide (p = "/interrupted")
       then [regular "f" 7; unreadable "g" KeyboardInterrupt]
  else [].

Definition example_fs : FileSystem := example_trees (example_listing hd_tree).

Definition example_args (hd sv : string) (v : bool) : Args :=
  {| hard_drive_path := hd; server_path := sv; verbose := v |}.

(** ** A console that cannot show a name *)

(** The file names and paths a line carries. *)
Definition carried (o : Out) : list string :=
  match o with
  | OLine text => [text]
  | OFoundFile relative_path _ | OWarning relative_path _
  | OProcessingDir relative_path => [relative_path]
  | OSubdir subdir _ => [subdir]
  | OMissing filename _ | ODetailMissing filename _ => [filename]
  | OIdentical filename server_path_match _ => [filename; server_path_match]
  | OIdenticalMulti filename server_paths_match _ =>
      filename :: server_paths_match
  | OSizeDiff filename _ server_instances
  | ODetailSizeDiff filename _ server_instances =>
      filename :: server_instances.*1
  | _ => []
  end.

Definition occurs_in (name text : string) : bool :=
  match String.index 0 name text with Some _ => true | None => false end.

(** A stdout whose encoding cannot express [name]: printing a line
    that carries it raises [UnicodeEncodeError], a subclass of
    [Exception] outside [OSError]. *)
Definition refusing (name : string) : Console :=
  λ o, if existsb (occurs_in name) (carried o) then Some RuntimeError
       else None.

(** A name with a byte that is no UTF-8. *)
Definition odd_name : string := "caf" +:+ String "233"%char ".txt".

Definition odd_tree : list Item := [regular "b.txt" 5; regular odd_name 3].

Definition odd_fs : FileSystem :=
  example_trees (λ p, if decide (p = "/server") then odd_tree
                      else hd_tree_without_c).

(** ** Readings of the trace and of the indexes *)

(** What a file is matched on: its basename and its size. *)
Definition match_key (entry : string * Z) : string * Z :=
  (basename entry.1, entry.2).

(** The lines that make up the report of a comparison: verdicts,
    summary counts and detail lines. *)
Definition is_report_line (o : Out) : bool :=
  match o with
  | OMissing _ _ | OIdentical _ _ _ | OIdenticalMulti _ _ _ | OSizeDiff _ _ _
  | OSummaryTotalHardDrive _ | OSummaryMissing _ | OSummarySizeDiff _
  | OSummaryIdentical _ | OSummaryTotalServer _
  | ODetailMissing _ _ | ODetailSizeDiff _ _ _ => true
  | _ => false
  end.

Definition is_detail_missing (o : Out) : bool :=
  match o with ODetailMissing _ _ => true | _ => false end.

Definition is_detail_size_diff (o : Out) : bool :=
  match o with ODetailSizeDiff _ _ _ => true | _ => false end.

(** The verdict printed for a source file, by its outcome: the lines
    carry the basename and the size on the hard drive; IDENTICAL names
    the one matching path, or lists the paths when several match. *)
Definition verdict_line (server_files : PyDict.t string Z)
    (item : string * Z) : Out :=
  match classify server_files item with
  | Missing => OMissing (basename item.1) item.2
  | SizeMatch [entry] => OIdentical (basename item.1) entry.1 item.2
  | SizeMatch matches => OIdenticalMulti (basename item.1) matches.*1 item.2
  | SizeMismatch candidates => OSizeDiff (basename item.1) item.2 candidates
  end.

(** The progress line after [k] of [total] files. *)
Definition progress_line (total k : nat) : Out :=
  OProgress (bar_width * k / total) k total.

Definition is_progress (o : Out) : bool :=
  match o with OProgress _ _ _ => true | _ => false end.

(** The file a verbose line announces, the file a warning is about. *)
Definition found_of (o : Out) : option (string * Z) :=
  match o with OFoundFile rel size => Some (rel, size) | _ => None end.

Definition warning_of (o : Out) : option (string * exn) :=
  match o with OWarning rel e => Some (rel, e) | _ => None end.

(** A line of the indexer outside its second pass: no progress line,
    no file announced, no warning. *)
Definition plain_line (o : Out) : Prop :=
  is_progress o = false ∧ found_of o = None ∧ warning_of o = None.

(** The variables of the second pass before its first entry
    (lines 34-35, 52). *)
Definition scan_init : ScanState :=
  {| files_info := PyDict.empty; directories_processed := ∅;
     processed_files := 0 |}.

(** The entries the second pass counts as processed, and those whose
    size cannot be read. *)
Definition is_file_item (item : Item) : Prop := is_file item = Ok true.

Definition skipped (item : Item) : option (string * exn) :=
  match is_file item, item_stat item with
  | Ok true, Raise e => if is_OSError e then Some (item_rel item, e) else None
  | _, _ => None
  end.

(** * Properties *)

(** ** The order [sorted] uses *)

Lemma tuple_le_fst x y : tuple_le x y → String.le x.1 y.1.
Proof.
  intros [[H _]|[-> _]]; [done|]. reflexivity.
Qed.

Global Instance tuple_le_total : Total tuple_le.
Proof.
  intros [p1 s1] [p2 s2]. unfold tuple_le, strict; simpl.
  destruct (decide (p1 = p2)) as [->|Hne].
  - destruct (Z.le_ge_cases s1 s2); [left|right]; right; split; auto; lia.
  - destruct (total String.le p1 p2) as [H|H]; [left|right]; left;
      (split; [done|]); intros H'; apply Hne;
      by apply (anti_symm String.le).
Qed.

Global Instance tuple_le_trans : Transitive tuple_le.
Proof.
  intros [p1 s1] [p2 s2] [p3 s3]. unfold tuple_le, strict; simpl.
  intros [[H12 N12]|[-> H12]] [[H23 N23]|[-> H23]].
  - left. split; [by trans p2|]. intros H31. apply N12. by trans p3.
  - left. done.
  - left. done.
  - right. split; [done|lia].
Qed.

Global Instance tuple_le_antisymm : AntiSymm (=) tuple_le.
Proof.
  intros [p1 s1] [p2 s2]. unfold tuple_le, strict; simpl.
  intros [[H12 N12]|[-> H12]] [[H21 N21]|[E H21]].
  - by destruct N12.
  - subst. by destruct N12.
  - by destruct N21.
  - f_equal. lia.
Qed.

Lemma sorted_items_perm l : sorted_items l ≡ₚ l.
Proof. apply merge_sort_Permutation. Qed.

Lemma sorted_items_sorted l : StronglySorted tuple_le (sorted_items l).
Proof. apply StronglySorted_merge_sort; apply _. Qed.

Lemma sorted_items_length l : length (sorted_items l) = length l.
Proof. by rewrite sorted_items_perm. Qed.

(** [sorted] depends on the elements only, not on the order they come
    in. *)
Lemma sorted_items_unique l1 l2 :
  l1 ≡ₚ l2 → sorted_items l1 = sorted_items l2.
Proof.
  intros E. apply (StronglySorted_unique tuple_le);
    [apply sorted_items_sorted..|].
  by rewrite !sorted_items_perm.
Qed.

Lemma sorted_items_paths_sorted l :
  StronglySorted String.le (sorted_items l).*1.
Proof.
  apply (StronglySorted_fmap _ tuple_le); [|apply sorted_items_sorted].
  intros x y. apply tuple_le_fst.
Qed.

(** Between two different paths of a sorted index the order is
    strict. *)
Lemma tuple_le_strict x y :
  tuple_le x y → x.1 ≠ y.1 → strict String.le x.1 y.1.
Proof. intros [H|[E _]] Hne; [done|]. by destruct Hne. Qed.

(** ** The [IO] monad *)

Lemma io_eta {A} (m : IO A) : m = (output m, value m).
Proof. by destruct m. Qed.

Lemma value_bind {A B} (m : IO A) (f : A → IO B) :
  value (m ≫= f) =
  match value m with Ok a => value (f a) | Raise e => Raise e end.
Proof.
  destruct m as [o [a|e]]; simpl; [|done].
  unfold mbind, IO_bind, bind. by destruct (f a).
Qed.

Lemma output_bind {A B} (m : IO A) (f : A → IO B) :
  output (m ≫= f) =
  match value m with
  | Ok a => output m ++ output (f a)
  | Raise e => output m
  end.
Proof.
  destruct m as [o [a|e]]; simpl; [|done].
  unfold mbind, IO_bind, bind. by destruct (f a).
Qed.

Lemma bind_ok {A B} o (a : A) (f : A → IO B) :
  ((o, Ok a) : IO A) ≫= f = (o ++ output (f a), value (f a)).
Proof. unfold mbind, IO_bind, bind. by destruct (f a). Qed.

Lemma bind_raise {A B} o e (f : A → IO B) :
  ((o, Raise e) : IO A) ≫= f = (o, Raise e).
Proof. done. Qed.

Lemma bind_ret_l {A B} (a : A) (f : A → IO B) : mret a ≫= f = f a.
Proof. unfold mret, IO_ret, ret. rewrite bind_ok. symmetry. apply io_eta. Qed.

Lemma for_each_cons {S X} (body : S → X → IO S) s x l :
  for_each body s (x :: l) = body s x ≫= λ s', for_each body s' l.
Proof. done. Qed.

Lemma for_each_app {S X} (body : S → X → IO S) s l1 l2 :
  for_each body s (l1 ++ l2) =
  for_each body s l1 ≫= λ s', for_each body s' l2.
Proof.
  revert s. induction l1 as [|x l1 IH]; intros s.
  - simpl app. change (for_each body s []) with (mret s : IO S).
    by rewrite bind_ret_l.
  - rewrite <-app_comm_cons, !for_each_cons.
    destruct (body s x) as [o [s'|e]]; [|done].
    rewrite !bind_ok, IH.
    destruct (for_each body s' l1) as [o1 [s1|e1]].
    + rewrite !bind_ok. cbn [output value fst snd].
      rewrite bind_ok. by rewrite (assoc_L (++)).
    + rewrite !bind_raise. cbn [output value fst snd]. by rewrite bind_raise.
Qed.

(** Two loops whose bodies keep a relation between their states end in
    related states, or raise the same exception. *)
Definition result_rel {A B} (R : A → B → Prop) (r1 : result A) (r2 : result B)
    : Prop :=
  match r1, r2 with
  | Ok a, Ok b => R a b
  | Raise e1, Raise e2 => e1 = e2
  | _, _ => False
  end.

Lemma for_each_rel {S1 S2 X} (R : S1 → S2 → Prop)
    (body1 : S1 → X → IO S1) (body2 : S2 → X → IO S2) l :
  (∀ s1 s2 x, R s1 s2 →
     result_rel R (value (body1 s1 x)) (value (body2 s2 x))) →
  ∀ s1 s2, R s1 s2 →
  result_rel R (value (for_each body1 s1 l)) (value (for_each body2 s2 l)).
Proof.
  intros Hbody. induction l as [|x l IH]; intros s1 s2 HR; simpl; [done|].
  rewrite !value_bind. specialize (Hbody s1 s2 x HR).
  destruct (value (body1 s1 x)) as [a|e1], (value (body2 s2 x)) as [b|e2];
    try done.
  by apply IH.
Qed.

(** What every line a loop body prints satisfies, every line of the
    loop satisfies. *)
Lemma for_each_output_Forall {S X} (P : Out → Prop)
    (body : S → X → IO S) l :
  (∀ s x, Forall P (output (body s x))) →
  ∀ s, Forall P (output (for_each body s l)).
Proof.
  intros Hbody. induction l as [|x l IH]; intros s; simpl; [constructor|].
  rewrite output_bind. destruct (value (body s x)).
  - apply Forall_app; auto.
  - auto.
Qed.

(** ** Dictionaries *)

Section PyDict_facts.
Context {K V : Type} `{EqDecision K}.
Implicit Types (d : PyDict.t K V) (k : K) (v : V).

Lemma get_set_item_eq k v d : PyDict.get k (PyDict.set_item k v d) = Some v.
Proof.
  induction d as [|[k' v'] d IH]; simpl.
  - by rewrite decide_True.
  - destruct (decide (k = k')) as [->|Hne]; simpl.
    + by rewrite decide_True.
    + by rewrite decide_False.
Qed.

Lemma get_set_item_ne k k' v d :
  k ≠ k' → PyDict.get k' (PyDict.set_item k v d) = PyDict.get k' d.
Proof.
  intros Hne. induction d as [|[k0 v0] d IH]; simpl.
  - by rewrite decide_False.
  - destruct (decide (k = k0)) as [->|]; simpl.
    + by rewrite !decide_False.
    + by rewrite IH.
Qed.

Lemma get_None_keys k d : PyDict.get k d = None ↔ k ∉ PyDict.keys d.
Proof.
  unfold PyDict.keys. induction d as [|[k' v'] d IH]; csimpl.
  - split; [intros _; apply not_elem_of_nil|done].
  - rewrite not_elem_of_cons. destruct (decide (k = k')) as [->|Hne].
    + split; [done|]. by intros [? _].
    + rewrite IH. split; [done|]. by intros [_ ?].
Qed.

(** Assigning to a key that is absent appends it. *)
Lemma set_item_fresh k v d :
  k ∉ PyDict.keys d → PyDict.set_item k v d = d ++ [(k, v)].
Proof.
  unfold PyDict.keys. induction d as [|[k' v'] d IH]; csimpl; [done|].
  rewrite not_elem_of_cons. intros [Hne Hd].
  rewrite decide_False by done. by rewrite IH.
Qed.

Lemma keys_set_item_present k v d :
  k ∈ PyDict.keys d → PyDict.keys (PyDict.set_item k v d) = PyDict.keys d.
Proof.
  unfold PyDict.keys. induction d as [|[k' v'] d IH]; csimpl.
  - by intros ?%elem_of_nil.
  - destruct (decide (k = k')) as [->|Hne]; csimpl; [done|].
    rewrite elem_of_cons. intros [?|Hin]; [done|]. by rewrite IH.
Qed.

Lemma set_item_wf k v d : PyDict.wf d → PyDict.wf (PyDict.set_item k v d).
Proof.
  unfold PyDict.wf. intros Hwf.
  destruct (decide (k ∈ PyDict.keys d)) as [Hin|Hnin].
  - by rewrite keys_set_item_present.
  - rewrite set_item_fresh by done. unfold PyDict.keys in *.
    rewrite fmap_app. simpl. apply NoDup_app. split_and!; [done| |].
    + intros x Hx ->%list_elem_of_singleton. done.
    + apply NoDup_singleton.
Qed.

Lemma contains_getitem k d :
  PyDict.contains k d = true → ∃ v, PyDict.get k d = Some v
                                    ∧ PyDict.getitem k d = Ok v.
Proof.
  unfold PyDict.contains, PyDict.getitem.
  destruct (PyDict.get k d); [eauto|done].
Qed.
End PyDict_facts.

(** ** The name index *)

Lemma same_name_snoc l p s name :
  same_name (l ++ [(p, s)]) name =
  same_name l name ++ (if decide (basename p = name) then [(p, s)] else []).
Proof.
  unfold same_name. rewrite filter_app. f_equal.
Qed.

Lemma index_step_spec done idx p s :
  name_index_of done idx →
  ∃ idx', index_step idx (p, s) = ([], Ok idx')
          ∧ name_index_of (done ++ [(p, s)]) idx'.
Proof.
  intros Hidx. unfold index_step, PyDict.contains, PyDict.getitem.
  pose proof (Hidx (basename p)) as Hfn.
  destruct (decide (same_name done (basename p) = [])) as [Hnil|Hcons].
  - rewrite Hfn. simpl negb. cbv iota.
    rewrite get_set_item_eq. eexists. split; [reflexivity|].
    intros name. rewrite same_name_snoc.
    destruct (decide (basename p = name)) as [<-|Hne].
    + by rewrite get_set_item_eq, Hnil.
    + rewrite !get_set_item_ne by done. rewrite Hidx.
      by rewrite (right_id_L [] (++)).
  - rewrite Hfn. simpl negb. cbv iota. rewrite Hfn.
    eexists. split; [reflexivity|].
    intros name. rewrite same_name_snoc.
    destruct (decide (basename p = name)) as [<-|Hne].
    + rewrite get_set_item_eq. rewrite decide_False; [done|].
      by intros [? _]%app_eq_nil.
    + rewrite !get_set_item_ne by done. rewrite Hidx.
      by rewrite (right_id_L [] (++)).
Qed.

Lemma index_loop_spec rest : ∀ done idx,
  name_index_of done idx →
  ∃ idx', for_each index_step idx rest = ([], Ok idx')
          ∧ name_index_of (done ++ rest) idx'.
Proof.
  induction rest as [|[p s] rest IH]; intros done idx Hidx.
  - exists idx. split; [done|]. by rewrite (right_id_L [] (++)).
  - destruct (index_step_spec done idx p s Hidx) as (idx1 & Hstep & Hidx1).
    destruct (IH _ _ Hidx1) as (idx' & Hloop & Hidx').
    exists idx'. split.
    + rewrite for_each_cons, Hstep, bind_ok, Hloop. done.
    + by rewrite <-(assoc_L (++)) in Hidx'.
Qed.

(** Building the name index prints nothing, raises nothing, and gives
    the name index of the target. *)
Lemma build_name_index server_files :
  ∃ idx, for_each index_step PyDict.empty (PyDict.items server_files)
         = ([], Ok idx)
         ∧ name_index_of server_files idx.
Proof.
  destruct (index_loop_spec server_files [] PyDict.empty) as (idx & H1 & H2).
  - intros name. done.
  - exists idx. done.
Qed.

(** ** The comparison loop *)

Lemma size_match_entries (size : Z) (m : list (string * Z)) :
  Forall (λ entry, entry.2 = size) m →
  (λ p, (p, size)) <$> m.*1 = m.
Proof.
  induction 1 as [|[p s] m Hs _ IH]; csimpl; [done|].
  simpl in Hs. subst. by rewrite IH.
Qed.

(** One iteration prints the CHECKING line and one verdict; the verdict
    reports the outcome the specification gives the file, and the
    counters move as the specification says. *)
Lemma check_step_spec server_files idx st item :
  name_index_of server_files idx →
  ∃ line,
    check_step idx st item
    = (checking item line, Ok (tally st item (classify server_files item)))
    ∧ reported line = Some (classify server_files item).
Proof.
  intros Hidx. destruct item as [p s].
  unfold check_step, classify, checking, PyDict.contains, PyDict.getitem.
  cbn [fst snd]. rewrite (Hidx (basename p)).
  unfold print, lift, mret, IO_ret, ret. rewrite bind_ok.
  destruct (decide (same_name server_files (basename p) = [])) as [Hnil|Hcons].
  - cbn [negb]. rewrite bind_ok. eexists. split; reflexivity.
  - cbn [negb]. rewrite bind_ok. cbn [output value fst snd].
    set (cands := same_name server_files (basename p)) in *.
    set (m := filter (λ entry : string * Z, entry.2 = s) cands).
    assert (Hm : Forall (λ entry : string * Z, entry.2 = s) m).
    { apply Forall_forall. intros e He. by apply list_elem_of_filter in He as [? _]. }
    destruct (decide (m = [])) as [Hmnil|Hmcons].
    + rewrite bool_decide_false by (by intros H; apply H).
      rewrite !bind_ok. eexists. split; reflexivity.
    + rewrite bool_decide_true by done.
      destruct (decide (length m = 1%nat)) as [Hlen|Hlen].
      * rewrite bool_decide_true by done.
        destruct m as [|e [|??]]; try done.
        unfold list_getitem. cbn [lookup list_lookup].
        rewrite !bind_ok. eexists. split; [reflexivity|].
        cbn [reported]. do 2 f_equal. destruct e as [ep es].
        apply Forall_cons_1 in Hm as [Hes _]. simpl in Hes. by subst.
      * rewrite bool_decide_false by done.
        rewrite !bind_ok. eexists. split; [reflexivity|].
        cbn [reported]. by rewrite size_match_entries.
Qed.

Lemma check_loop_spec server_files idx :
  name_index_of server_files idx →
  ∀ l st, ∃ lines,
    for_each (check_step idx) st l
    = (mjoin (zip_with checking l lines), Ok (reconcile server_files st l))
    ∧ Forall2 (λ item line, reported line = Some (classify server_files item))
        l lines.
Proof.
  intros Hidx. induction l as [|item l IH]; intros st.
  - exists []. split; [done|constructor].
  - destruct (check_step_spec server_files idx st item Hidx) as (line & Hs & Hr).
    destruct (IH (tally st item (classify server_files item)))
      as (lines & Hl & Hrs).
    exists (line :: lines). split; [|by constructor].
    rewrite for_each_cons, Hs, bind_ok, Hl. done.
Qed.

Lemma reconcile_cons server_files st item l :
  reconcile server_files st (item :: l)
  = reconcile server_files (tally st item (classify server_files item)) l.
Proof. done. Qed.

(** What [reconcile] counts and lists. *)
Lemma reconcile_spec server_files l : ∀ st,
  let st' := reconcile server_files st l in
  let outcome := classify server_files in
  missing_files st'
    = (missing_files st + length (filter (λ i, is_Missing (outcome i)) l))%nat
  ∧ identical_files st'
    = (identical_files st + length (filter (λ i, is_SizeMatch (outcome i)) l))%nat
  ∧ size_mismatch_files st'
    = (size_mismatch_files st
       + length (filter (λ i, is_SizeMismatch (outcome i)) l))%nat
  ∧ missing_file_details st'
    = missing_file_details st ++ filter (λ i, is_Missing (outcome i)) l
  ∧ mismatch_file_details st'
    = mismatch_file_details st
      ++ omap (λ i, match outcome i with
                    | SizeMismatch c => Some (i, c)
                    | _ => None
                    end) l.
Proof.
  induction l as [|item l IH]; intros st; cbn zeta.
  - simpl. rewrite ?filter_nil, !Nat.add_0_r, !app_nil_r. done.
  - rewrite reconcile_cons.
    destruct (IH (tally st item (classify server_files item)))
      as (H1 & H2 & H3 & H4 & H5). cbn zeta in *.
    rewrite H1, H2, H3, H4, H5. clear.
    rewrite !filter_cons. cbn [omap list_omap].
    destruct (classify server_files item); simpl;
      rewrite <-?(assoc_L (++)); simpl; split_and!; auto with lia.
Qed.

(** ** What a computation prints *)

Section output_facts.
Context (P : Out → Prop).

Lemma Forall_output_bind {A B} (m : IO A) (f : A → IO B) :
  Forall P (output m) → (∀ a, Forall P (output (f a))) →
  Forall P (output (m ≫= f)).
Proof.
  intros Hm Hf. rewrite output_bind. destruct (value m); [|done].
  apply Forall_app; auto.
Qed.

Lemma Forall_output_print o : P o → Forall P (output (print o)).
Proof. intros. by repeat constructor. Qed.

Lemma Forall_output_ret {A} (a : A) : Forall P (output (mret a : IO A)).
Proof. constructor. Qed.

Lemma Forall_output_lift {A} (r : result A) : Forall P (output (lift r)).
Proof. constructor. Qed.

Lemma Forall_output_when c body :
  Forall P (output body) → Forall P (output (when c body)).
Proof. destruct c; [done|constructor]. Qed.

Lemma Forall_output_try_except {A} (body : IO A) catches handler :
  Forall P (output body) → (∀ e, Forall P (output (handler e))) →
  Forall P (output (try_except body catches handler)).
Proof.
  intros Hb Hh. destruct body as [o [a|e]]; simpl; [done|].
  destruct (catches e); [|done].
  specialize (Hh e). destruct (handler e) as [o' r]. simpl in *.
  apply Forall_app; auto.
Qed.
End output_facts.

(** A loop that only prints returns, whatever it goes through. *)
Lemma for_each_print {X} (body : () → X → IO ()) (f : X → Out) l :
  (∀ u x, body u x = print (f x)) →
  for_each body () l = (f <$> l, Ok ()).
Proof.
  intros Hbody. induction l as [|x l IH]; [done|].
  rewrite for_each_cons, Hbody. unfold print. rewrite bind_ok, IH. done.
Qed.

Ltac output_Forall :=
  repeat first
    [ apply Forall_output_bind; [|intros ?]
    | apply Forall_output_print
    | apply Forall_output_ret
    | apply Forall_output_lift
    | apply Forall_output_try_except; [|intros ?]
    | apply for_each_output_Forall; intros ? ?
    | match goal with
      | |- Forall _ (output (when ?c _)) => destruct c; cbn [when]
      | |- Forall _ (output (if ?c then _ else _)) => destruct c
      | |- Forall _ (output (let '(_, _) := ?x in _)) => destruct x
      end ].

Lemma when_value c body : value body = Ok () → value (when c body) = Ok ().
Proof. by destruct c. Qed.

(** The summary returns, and none of its lines is a verdict. *)
Lemma print_summary_value hard_drive_files server_files st :
  value (print_summary hard_drive_files server_files st) = Ok ().
Proof.
  unfold print_summary.
  repeat (rewrite value_bind; cbn [value print snd]).
  rewrite when_value.
  - rewrite when_value; [done|].
    rewrite value_bind; cbn [value print snd].
    by rewrite (for_each_print _
      (λ '(mismatch_file, hd_size, server_instances),
         ODetailSizeDiff mismatch_file hd_size server_instances))
      by (by intros ? [[??]?]).
  - rewrite value_bind; cbn [value print snd].
    by rewrite (for_each_print _
      (λ '(missing_file, size), ODetailMissing missing_file size))
      by (by intros ? [??]).
Qed.

Lemma print_summary_no_verdict hard_drive_files server_files st :
  Forall (λ o, reported o = None)
    (output (print_summary hard_drive_files server_files st)).
Proof.
  unfold print_summary. output_Forall; done.
Qed.

(** The comparison proper: it returns; it prints, for each source file
    in sorted order, the CHECKING line and one verdict reporting the
    file's outcome, then the summary of the reconciled counters. *)
Lemma compare_indexes_spec hard_drive_files server_files :
  let st := reconcile server_files init_stats (sorted_items hard_drive_files) in
  ∃ lines,
    compare_indexes hard_drive_files server_files
    = (OLine (nl +:+ "3. COMPARING FILES:")
         :: mjoin (zip_with checking (sorted_items hard_drive_files) lines)
         ++ output (print_summary hard_drive_files server_files st),
       Ok {| total_hard_drive := PyDict.len hard_drive_files;
             stats := st;
             total_server := PyDict.len server_files |})
    ∧ Forall2 (λ item line, reported line = Some (classify server_files item))
        (sorted_items hard_drive_files) lines.
Proof.
  intros st.
  destruct (build_name_index server_files) as (idx & Hbuild & Hidx).
  destruct (check_loop_spec server_files idx Hidx
              (sorted_items hard_drive_files) init_stats) as (lines & Hloop & Hr).
  exists lines. split; [|done].
  unfold compare_indexes. unfold print at 1.
  rewrite bind_ok, Hbuild, bind_ok. cbn [output value fst snd].
  unfold PyDict.items. rewrite Hloop, bind_ok. cbn [output value fst snd].
  fold st.
  pose proof (print_summary_value hard_drive_files server_files st) as Hv.
  destruct (print_summary hard_drive_files server_files st) as [os rs].
  simpl in Hv. subst rs. rewrite bind_ok.
  cbn [output value fst snd mret IO_ret ret app]. by rewrite app_nil_r.
Qed.

Lemma print_summary_output hard_drive_files server_files st :
  output (print_summary hard_drive_files server_files st)
  = [OLine (nl +:+ str_mul "=" 80); OLine "SUMMARY:";
     OSummaryTotalHardDrive (PyDict.len hard_drive_files);
     OSummaryMissing (missing_files st);
     OSummarySizeDiff (size_mismatch_files st);
     OSummaryIdentical (identical_files st);
     OSummaryTotalServer (PyDict.len server_files)]
    ++ (if bool_decide (0 < missing_files st)%nat
        then OLine (nl +:+ "Missing files details:")
             :: ((λ '(missing_file, size), ODetailMissing missing_file size)
                   <$> missing_file_details st)
        else [])
    ++ (if bool_decide (0 < size_mismatch_files st)%nat
        then OLine (nl +:+ "Size mismatch files details:")
             :: ((λ '(mismatch_file, hd_size, server_instances),
                    ODetailSizeDiff mismatch_file hd_size server_instances)
                   <$> mismatch_file_details st)
        else []).
Proof.
  unfold print_summary, when.
  rewrite (for_each_print _
    (λ '(mismatch_file, hd_size, server_instances),
       ODetailSizeDiff mismatch_file hd_size server_instances))
    by (by intros ? [[??]?]).
  rewrite (for_each_print _
    (λ '(missing_file, size), ODetailMissing missing_file size))
    by (by intros ? [??]).
  unfold print. rewrite !bind_ok.
  destruct (bool_decide (0 < missing_files st)%nat),
    (bool_decide (0 < size_mismatch_files st)%nat);
    repeat (progress (rewrite ?bind_ok; cbn [output value fst snd app ret]));
    by rewrite ?app_nil_r.
Qed.

(** ** Outcomes *)

(** Every file has one of the three outcomes. *)
Lemma outcome_partition (outcome : string * Z → Outcome) l :
  length l
  = (length (filter (λ i, is_Missing (outcome i)) l)
     + length (filter (λ i, is_SizeMatch (outcome i)) l)
     + length (filter (λ i, is_SizeMismatch (outcome i)) l))%nat.
Proof.
  induction l as [|i l IH]; [done|].
  rewrite !filter_cons. destruct (outcome i); simpl; lia.
Qed.

Lemma mismatch_details_paths (outcome : string * Z → Outcome) l :
  (omap (λ i, match outcome i with
              | SizeMismatch c => Some (i, c)
              | _ => None
              end) l).*1
  = filter (λ i, is_SizeMismatch (outcome i)) l.
Proof.
  induction l as [|i l IH]; [done|].
  rewrite filter_cons. cbn [omap list_omap].
  destruct (outcome i); simpl; by rewrite <-?IH.
Qed.

Lemma StronglySorted_filter {A} (R : relation A) (P : A → Prop)
    `{∀ x, Decision (P x)} l :
  StronglySorted R l → StronglySorted R (filter P l).
Proof.
  induction 1 as [|x l Hl IH Hx]; [constructor|].
  rewrite filter_cons. destruct (decide (P x)); [|done].
  constructor; [done|]. apply Forall_forall. intros y Hy.
  apply list_elem_of_filter in Hy as [_ Hy].
  by eapply Forall_forall in Hx.
Qed.

(** The two lines of a source file stand in the trace. *)
Lemma checking_in_trace (R : string * Z → Out → Prop) l lines item :
  Forall2 R l lines → item ∈ l →
  ∃ line o1 o2,
    mjoin (zip_with checking l lines) = o1 ++ checking item line ++ o2
    ∧ R item line.
Proof.
  induction 1 as [|x line l lines HR _ IH]; [by intros ?%elem_of_nil|].
  intros [->|Hin]%elem_of_cons.
  - exists line, [], (mjoin (zip_with checking l lines)). done.
  - destruct (IH Hin) as (line' & o1 & o2 & E & HR').
    exists line', (checking x line ++ o1), o2. split; [|done].
    change (mjoin (zip_with checking (x :: l) (line :: lines)))
      with (checking x line ++ mjoin (zip_with checking l lines)).
    rewrite E. by rewrite <-(assoc_L (++)).
Qed.

(** The specification's outcome when some candidate has the size. *)
Lemma classify_size_match server_files p s :
  (∃ e, e ∈ server_files ∧ basename e.1 = basename p ∧ e.2 = s) →
  classify server_files (p, s)
  = SizeMatch (filter (λ e : string * Z, basename e.1 = basename p ∧ e.2 = s)
                 server_files).
Proof.
  intros (e & He & Hname & Hsize). unfold classify, same_name. cbn [fst snd].
  rewrite decide_False.
  2:{ intros Hnil. by eapply filter_nil_not_elem_of; [exact Hnil|exact Hname|]. }
  rewrite list_filter_filter.
  rewrite decide_False.
  2:{ intros Hnil. by eapply filter_nil_not_elem_of; [exact Hnil| |exact He]. }
  f_equal. apply list_filter_iff. tauto.
Qed.

(** The specification's outcome when the name is there and no
    candidate has the size. *)
Lemma classify_size_mismatch server_files p s :
  (∃ e, e ∈ server_files ∧ basename e.1 = basename p) →
  (∀ e, e ∈ server_files → basename e.1 = basename p → e.2 ≠ s) →
  classify server_files (p, s)
  = SizeMismatch (same_name server_files (basename p)).
Proof.
  intros (e & He & Hname) Hsizes. unfold classify. cbn [fst snd].
  rewrite decide_False.
  2:{ intros Hnil. by eapply filter_nil_not_elem_of; [exact Hnil|exact Hname|]. }
  rewrite decide_True; [done|].
  apply elem_of_nil_inv.
  intros x [Hs [Hn Hx]%list_elem_of_filter]%list_elem_of_filter.
  by eapply Hsizes.
Qed.

(** ** The indexer *)

Ltac value_steps :=
  repeat (rewrite value_bind; cbn [value print lift snd]).

(** Runs a computation whose branches are all decided. *)
Ltac io_run :=
  cbv [lift when print try_except mbind mret IO_bind IO_ret bind ret
       update_progress_bar value output result_rel fst snd negb];
  cbn [app].

Lemma count_step_value n item :
  value (count_step n item)
  = match is_file item with
    | Ok true => Ok (S n)
    | Ok false => Ok n
    | Raise e => Raise e
    end.
Proof.
  unfold count_step. value_steps.
  destruct (is_file item) as [[]|e]; [|done..].
  value_steps. unfold when.
  by destruct (_ || _).
Qed.

(** The counting pass raises what the first faulty entry raises, and
    counts the files otherwise. *)
Lemma count_loop_value l : ∀ n,
  value (for_each count_step n l)
  = match first_fault l with
    | Some e => Raise e
    | None => Ok (n + length (filter (λ item, is_file item = Ok true) l))%nat
    end.
Proof.
  induction l as [|item l IH]; intros n.
  - simpl. by rewrite Nat.add_0_r.
  - rewrite for_each_cons, value_bind, count_step_value, filter_cons.
    cbn [first_fault].
    destruct (is_file item) as [[]|e] eqn:Hf; unfold is_file in Hf;
      destruct (item_fault item) as [e'|]; simplify_eq; try done.
    rewrite IH, decide_True by done.
    destruct (first_fault l); [done|]. simpl. f_equal. lia.
Qed.

Lemma scan_step_value verbose total st item :
  result_rel (λ st' d, files_info st' = d)
    (value (scan_step verbose total st item))
    (match is_file item with
     | Raise e => Raise e
     | Ok true =>
         match item_stat item with
         | Ok size => Ok (PyDict.set_item (item_rel item) size (files_info st))
         | Raise e => if is_OSError e then Ok (files_info st) else Raise e
         end
     | Ok false => Ok (files_info st)
     end).
Proof.
  unfold scan_step, is_dir, stat_st_size. value_steps.
  unfold is_file.
  destruct (item_fault item) as [e|]; [done|].
  destruct (bool_decide (resolve (item_entry item) = Some Regular)).
  - destruct (item_stat item) as [size|e].
    + by destruct verbose, (decide (total = 0%nat)) eqn:Ht; io_run;
        rewrite ?Ht.
    + by destruct (is_OSError e) eqn:He, verbose,
        (decide (total = 0%nat)) eqn:Ht; io_run; rewrite ?He, ?Ht.
  - by destruct (bool_decide (resolve (item_entry item) = Some Directory)),
      verbose; io_run.
Qed.

Lemma scan_loop_value verbose total l : ∀ st,
  result_rel (λ st' d, files_info st' = d)
    (value (for_each (scan_step verbose total) st l))
    (index_from (files_info st) l).
Proof.
  induction l as [|item l IH]; intros st; [done|].
  rewrite for_each_cons, value_bind. cbn [index_from].
  pose proof (scan_step_value verbose total st item) as Hstep.
  destruct (value (scan_step verbose total st item)) as [st'|e'].
  - specialize (IH st').
    destruct (is_file item) as [[]|e];
      [|simpl in Hstep; by rewrite Hstep in IH|done].
    destruct (item_stat item) as [size|e]; simpl in Hstep.
    + by rewrite Hstep in IH.
    + destruct (is_OSError e); [by rewrite Hstep in IH|done].
  - destruct (is_file item) as [[]|e]; [|done|done].
    destruct (item_stat item) as [size|e]; [done|].
    by destruct (is_OSError e).
Qed.

(** What the indexer returns or raises, whatever it prints. *)
Lemma scan_value fs verbose directory_path :
  value (get_all_files_recursive fs verbose directory_path)
  = scan_result (rglob fs directory_path).
Proof.
  unfold get_all_files_recursive, scan_result. value_steps.
  rewrite count_loop_value.
  destruct (first_fault (rglob fs directory_path)); [done|].
  value_steps.
  match goal with
  | |- context [for_each (scan_step verbose ?t) ?st ?l] =>
      pose proof (scan_loop_value verbose t l st) as Hloop;
      destruct (value (for_each (scan_step verbose t) st l)) as [st'|e]
  end; cbn [files_info] in Hloop;
    destruct (index_from PyDict.empty (rglob fs directory_path)) as [d|e'];
    try done; simpl in Hloop; subst; [|done].
  rewrite value_bind, when_value by done. value_steps.
  rewrite when_value; [done|]. value_steps.
  by erewrite for_each_print by done.
Qed.

Lemma first_fault_app l1 l2 :
  first_fault (l1 ++ l2)
  = match first_fault l1 with Some e => Some e | None => first_fault l2 end.
Proof.
  induction l1 as [|item l1 IH]; [done|]. simpl.
  by destruct (item_fault item).
Qed.

Lemma index_from_app l1 l2 : ∀ d,
  index_from d (l1 ++ l2)
  = match index_from d l1 with
    | Ok d' => index_from d' l2
    | Raise e => Raise e
    end.
Proof.
  induction l1 as [|item l1 IH]; intros d; [done|]. simpl.
  destruct (is_file item) as [[]|e]; [|done..].
  destruct (item_stat item) as [size|e]; [done|].
  by destruct (is_OSError e).
Qed.

(** A file whose size cannot be read leaves the scan as it would be
    without the file. *)
Lemma scan_result_skip l1 item l2 e :
  is_file item = Ok true → item_stat item = Raise e → is_OSError e = true →
  scan_result (l1 ++ item :: l2) = scan_result (l1 ++ l2).
Proof.
  intros Hf Hs He. unfold scan_result.
  rewrite !first_fault_app, !index_from_app. cbn [first_fault index_from].
  rewrite Hf, Hs, He.
  unfold is_file in Hf. destruct (item_fault item); [done|]. done.
Qed.

Lemma elem_of_set_item (k : string) (v : Z) d kv :
  kv ∈ PyDict.set_item k v d → kv = (k, v) ∨ kv ∈ d.
Proof.
  induction d as [|[k' v'] d IH]; simpl.
  - intros ->%list_elem_of_singleton. by left.
  - destruct (decide (k = k')) as [->|Hne].
    + intros [->|?]%elem_of_cons; [by left|]. right. by right.
    + intros [->|Hin]%elem_of_cons; [right; by left|].
      destruct (IH Hin) as [->|?]; [by left|]. right. by right.
Qed.

(** Every record of the index is the record of some entry. *)
Lemma index_from_elem l : ∀ d d' kv,
  index_from d l = Ok d' → kv ∈ d' →
  kv ∈ d ∨ ∃ item, item ∈ l ∧ recorded item = Some kv.
Proof.
  induction l as [|item l IH]; intros d d' kv; simpl.
  - intros [= ->] ?. by left.
  - unfold recorded in *.
    destruct (is_file item) as [[]|e] eqn:Hf; [| |done].
    + destruct (item_stat item) as [size|e] eqn:Hs.
      * intros Hd' Hin. destruct (IH _ _ _ Hd' Hin) as [Hset|(it & Hit & Hrec)].
        -- apply elem_of_set_item in Hset as [->|?]; [|by left].
           right. exists item. split; [by left|]. by rewrite Hf, Hs.
        -- right. exists it. split; [by right|done].
      * destruct (is_OSError e); [|done].
        intros Hd' Hin. destruct (IH _ _ _ Hd' Hin) as [?|(it & Hit & Hrec)];
          [by left|]. right. exists it. split; [by right|done].
    + intros Hd' Hin. destruct (IH _ _ _ Hd' Hin) as [?|(it & Hit & Hrec)];
        [by left|]. right. exists it. split; [by right|done].
Qed.

(** When no path comes twice, the index lists the records of the
    entries in the order of the traversal. *)
Lemma index_from_fresh l : ∀ d d',
  NoDup (PyDict.keys d ++ (item_rel <$> l)) →
  index_from d l = Ok d' → d' = d ++ omap recorded l.
Proof.
  induction l as [|item l IH]; intros d d' Hnd; simpl.
  - intros [= ->]. by rewrite app_nil_r.
  - unfold recorded in *. csimpl in Hnd.
    assert (Hnd' : NoDup (PyDict.keys d ++ (item_rel <$> l))).
    { apply NoDup_app in Hnd as (H1 & H2 & H3). apply NoDup_app.
      split_and!; [done| |by apply NoDup_cons in H3 as [_ ?]].
      intros x Hx Hx'. apply (H2 x Hx). by right. }
    destruct (is_file item) as [[]|e]; [| |done]; [|by apply IH].
    destruct (item_stat item) as [size|e].
    + intros Hd'. apply IH in Hd'.
      * rewrite Hd', set_item_fresh, <-(assoc_L (++)); [done|].
        apply NoDup_app in Hnd as (_ & H2 & _). intros Hin.
        apply (H2 _ Hin). by left.
      * rewrite set_item_fresh.
        2:{ apply NoDup_app in Hnd as (_ & H2 & _). intros Hin.
            apply (H2 _ Hin). by left. }
        unfold PyDict.keys in *. rewrite fmap_app, <-(assoc_L (++)). done.
    + destruct (is_OSError e); [by apply IH|done].
Qed.

(** The scan returns exactly when it gets past every entry. *)
Lemma index_from_Ok_iff l : ∀ d,
  (∃ d', index_from d l = Ok d') ↔ Forall scannable l.
Proof.
  induction l as [|item l IH]; intros d; simpl.
  - split; [constructor|eauto].
  - rewrite Forall_cons. unfold scannable at 1. unfold is_file.
    destruct (item_fault item) as [e|].
    { split; [by intros [? ?]|by intros [[? _] _]]. }
    destruct (bool_decide (resolve (item_entry item) = Some Regular)).
    + destruct (item_stat item) as [size|e].
      * rewrite IH. split; [by intros ?|by intros [_ ?]].
      * destruct (is_OSError e).
        -- rewrite IH. split; [by intros ?|by intros [_ ?]].
        -- split; [by intros [? ?]|]. intros [[_ H] _].
           by specialize (H eq_refl).
    + rewrite IH. split; [by intros ?|by intros [_ ?]].
Qed.

Lemma scannable_first_fault l : Forall scannable l → first_fault l = None.
Proof.
  induction 1 as [|item l [Hf _] _ IH]; [done|]. simpl. by rewrite Hf.
Qed.

Lemma scan_result_Ok_iff l :
  (∃ d, scan_result l = Ok d) ↔ Forall scannable l.
Proof.
  unfold scan_result. split.
  - intros [d Hd]. destruct (first_fault l); [done|].
    apply (index_from_Ok_iff l PyDict.empty). eauto.
  - intros Hl. rewrite scannable_first_fault by done.
    by apply index_from_Ok_iff.
Qed.

Lemma scan_result_fresh l d :
  NoDup (item_rel <$> l) → scan_result l = Ok d → d = omap recorded l.
Proof.
  unfold scan_result. intros Hnd. destruct (first_fault l); [done|].
  intros Hd. by apply index_from_fresh in Hd.
Qed.

Lemma recorded_rel item kv : recorded item = Some kv → kv.1 = item_rel item.
Proof.
  unfold recorded. destruct (is_file item) as [[]|]; try done.
  destruct (item_stat item); [|done]. by intros [= <-].
Qed.

(** The index of a traversal without repeated paths has no repeated
    key. *)
Lemma scan_result_wf l d :
  NoDup (item_rel <$> l) → scan_result l = Ok d → PyDict.wf d.
Proof.
  intros Hnd Hd. rewrite (scan_result_fresh l d Hnd Hd).
  unfold PyDict.wf, PyDict.keys. clear Hd.
  induction l as [|item l IH]; csimpl; [constructor|].
  apply NoDup_cons in Hnd as [Hnin Hnd].
  destruct (recorded item) as [kv|] eqn:Hrec; csimpl; [|by apply IH].
  apply NoDup_cons. split; [|by apply IH].
  rewrite (recorded_rel _ _ Hrec). intros Hin. apply Hnin.
  apply list_elem_of_fmap in Hin as ([k v] & -> & Hin).
  apply list_elem_of_omap in Hin as (it & Hit & Hr).
  apply recorded_rel in Hr. simpl in *. subst.
  apply list_elem_of_fmap. eauto.
Qed.

(** ** The lines of the indexer *)

(** Without [--verbose] the indexer prints no warning. *)
Lemma scan_quiet fs directory_path :
  Forall (λ o, is_warning o = false)
    (output (get_all_files_recursive fs false directory_path)).
Proof.
  unfold get_all_files_recursive, count_step, scan_step, update_progress_bar.
  cbn [negb andb]. output_Forall; done.
Qed.

Lemma value_bind_Ok_inv {A B} (m : IO A) (f : A → IO B) b :
  value (m ≫= f) = Ok b → ∃ a, value m = Ok a ∧ value (f a) = Ok b.
Proof. rewrite value_bind. destruct (value m); [eauto|done]. Qed.

Lemma output_bind_Ok {A B} (m : IO A) (f : A → IO B) a :
  value m = Ok a → output (m ≫= f) = output m ++ output (f a).
Proof. intros H. by rewrite output_bind, H. Qed.

(** A loop that returns has printed what each of its iterations
    printed. *)
Lemma for_each_output_elem {S X} (body : S → X → IO S) l1 x l2 s s' :
  value (for_each body s (l1 ++ x :: l2)) = Ok s' →
  ∃ s1, value (for_each body s l1) = Ok s1
        ∧ ∀ o, o ∈ output (body s1 x) →
               o ∈ output (for_each body s (l1 ++ x :: l2)).
Proof.
  rewrite for_each_app. intros (s1 & H1 & H2)%value_bind_Ok_inv.
  exists s1. split; [done|]. intros o Ho.
  rewrite (output_bind_Ok _ _ _ H1). apply elem_of_app. right.
  rewrite for_each_cons, output_bind.
  destruct (value (body s1 x)); [|done]. apply elem_of_app. by left.
Qed.

(** With [--verbose], the iteration over a file whose size cannot be
    read prints the warning and goes on. *)
Lemma scan_step_warns total st item e :
  is_file item = Ok true → item_stat item = Raise e → is_OSError e = true →
  scan_step true total st item
  = ([OWarning (item_rel item) e],
     Ok {| files_info := files_info st;
           directories_processed := directories_processed st;
           processed_files := S (processed_files st) |}).
Proof.
  intros Hf Hs He. unfold scan_step, stat_st_size. rewrite Hf, Hs.
  io_run. by rewrite He.
Qed.

Lemma scan_verbose_warns fs directory_path l1 item l2 e d :
  rglob fs directory_path = l1 ++ item :: l2 →
  is_file item = Ok true → item_stat item = Raise e → is_OSError e = true →
  value (get_all_files_recursive fs true directory_path) = Ok d →
  OWarning (item_rel item) e
  ∈ output (get_all_files_recursive fs true directory_path).
Proof.
  intros Hl Hf Hs He. unfold get_all_files_recursive.
  intros (u1 & H1 & Hv)%value_bind_Ok_inv.
  rewrite (output_bind_Ok _ _ _ H1). apply elem_of_app. right.
  apply value_bind_Ok_inv in Hv as (u2 & H2 & Hv).
  rewrite (output_bind_Ok _ _ _ H2). apply elem_of_app. right.
  apply value_bind_Ok_inv in Hv as (total & H3 & Hv).
  rewrite (output_bind_Ok _ _ _ H3). apply elem_of_app. right.
  apply value_bind_Ok_inv in Hv as (u4 & H4 & Hv).
  rewrite (output_bind_Ok _ _ _ H4). apply elem_of_app. right.
  apply value_bind_Ok_inv in Hv as (st' & H5 & Hv).
  rewrite (output_bind_Ok _ _ _ H5). apply elem_of_app. left.
  rewrite Hl in *.
  destruct (for_each_output_elem _ _ _ _ _ _ H5) as (s1 & _ & Hout).
  apply Hout. rewrite (scan_step_warns _ _ _ e) by done. by left.
Qed.

(** ** Strings of the error lines *)

Lemma str_length_app s t :
  String.length (s +:+ t) = (String.length s + String.length t)%nat.
Proof. induction s as [|c s IH]; simpl; [done|]. by rewrite IH. Qed.

Lemma str_app_assoc s t u : (s +:+ t) +:+ u = s +:+ (t +:+ u).
Proof.
  induction s as [|c s IH]; [done|].
  change (String c ((s +:+ t) +:+ u) = String c (s +:+ (t +:+ u))).
  by rewrite IH.
Qed.

(** Two strings that end in suffixes of one length agree on the
    suffixes. *)
Lemma str_app_inj_suffix s1 s2 t1 t2 :
  String.length t1 = String.length t2 →
  s1 +:+ t1 = s2 +:+ t2 → s1 = s2 ∧ t1 = t2.
Proof.
  intros Hlen Heq.
  assert (Hs : String.length s1 = String.length s2).
  { apply (f_equal String.length) in Heq. rewrite !str_length_app in Heq. lia. }
  clear Hlen. revert s2 Heq Hs.
  induction s1 as [|c s1 IH]; intros [|c' s2] Heq Hs; simplify_eq/=; [done|].
  destruct (IH _ ltac:(done) ltac:(done)) as [-> ->]. done.
Qed.

Lemma err_exist_ne_dir (pre p q : string) :
  pre +:+ p +:+ "' does not exist." ≠ pre +:+ q +:+ "' is not a directory.".
Proof.
  intros H%(inj (String.app pre)).
  change "' does not exist." with ("' does not e" +:+ "xist.") in H.
  change "' is not a directory." with ("' is not a direc" +:+ "tory.") in H.
  rewrite <-!str_app_assoc in H.
  by apply str_app_inj_suffix in H as [_ ?].
Qed.

Lemma err_path_inj (pre suf p q : string) :
  pre +:+ p +:+ suf = pre +:+ q +:+ suf → p = q.
Proof.
  intros H%(inj (String.app pre)).
  by apply str_app_inj_suffix in H as [? _].
Qed.

(** The four error lines of the validation differ from one another
    whatever the paths, and each carries the path it is about. *)
Lemma error_lines_distinct p q :
  err_hard_drive_not_exist p ≠ err_server_not_exist q
  ∧ err_hard_drive_not_exist p ≠ err_hard_drive_not_dir q
  ∧ err_hard_drive_not_exist p ≠ err_server_not_dir q
  ∧ err_server_not_exist p ≠ err_hard_drive_not_dir q
  ∧ err_server_not_exist p ≠ err_server_not_dir q
  ∧ err_hard_drive_not_dir p ≠ err_server_not_dir q.
Proof.
  unfold err_hard_drive_not_exist, err_server_not_exist,
    err_hard_drive_not_dir, err_server_not_dir.
  split_and!; try (intros H; simpl in H; discriminate H);
    apply err_exist_ne_dir.
Qed.

Lemma error_lines_name_path p q :
  (err_hard_drive_not_exist p = err_hard_drive_not_exist q → p = q)
  ∧ (err_server_not_exist p = err_server_not_exist q → p = q)
  ∧ (err_hard_drive_not_dir p = err_hard_drive_not_dir q → p = q)
  ∧ (err_server_not_dir p = err_server_not_dir q → p = q).
Proof. split_and!; apply err_path_inj. Qed.

(** ** The lines of a whole run *)

Ltac not_combined_error :=
  unfold is_combined_error, err_both_not_exist, err_both_not_dir;
  let H := fresh in intros [H|H]; simpl in H; discriminate H.

Lemma compare_directories_no_combined_error fs verbose hd sv :
  Forall (λ o, ¬ is_combined_error o)
    (output (compare_directories fs verbose hd sv)).
Proof.
  unfold compare_directories, get_all_files_recursive, count_step, scan_step,
    update_progress_bar, compare_indexes, print_summary, index_step,
    check_step.
  output_Forall; not_combined_error.
Qed.

(** The branches of the path validation, one by one. *)
Lemma main_hard_drive_not_exist fs args :
  path_exists fs (hard_drive_path args) = false →
  main fs args = ([OLine (err_hard_drive_not_exist (hard_drive_path args))], 1).
Proof. intros H. unfold main. by rewrite H. Qed.

Lemma main_server_not_exist fs args :
  path_exists fs (hard_drive_path args) = true →
  path_exists fs (server_path args) = false →
  main fs args = ([OLine (err_server_not_exist (server_path args))], 1).
Proof. intros H1 H2. unfold main. by rewrite H1, H2. Qed.

Lemma main_hard_drive_not_dir fs args :
  path_exists fs (hard_drive_path args) = true →
  path_exists fs (server_path args) = true →
  path_isdir fs (hard_drive_path args) = false →
  main fs args = ([OLine (err_hard_drive_not_dir (hard_drive_path args))], 1).
Proof. intros H1 H2 H3. unfold main. by rewrite H1, H2, H3. Qed.

Lemma main_server_not_dir fs args :
  path_exists fs (hard_drive_path args) = true →
  path_exists fs (server_path args) = true →
  path_isdir fs (hard_drive_path args) = true →
  path_isdir fs (server_path args) = false →
  main fs args = ([OLine (err_server_not_dir (server_path args))], 1).
Proof. intros H1 H2 H3 H4. unfold main. by rewrite H1, H2, H3, H4. Qed.

(** Both paths being directories, the run is the comparison, and the
    status tells whether it returned. *)
Lemma main_valid fs args :
  path_exists fs (hard_drive_path args) = true →
  path_exists fs (server_path args) = true →
  path_isdir fs (hard_drive_path args) = true →
  path_isdir fs (server_path args) = true →
  let run := compare_directories fs (verbose args)
               (hard_drive_path args) (server_path args) in
  match value run with
  | Ok _ => main fs args = (output run, 0)
  | Raise e =>
      exit_status (main fs args) = 1
      ∧ ∃ line, main fs args = (output run ++ [line], 1)
  end.
Proof.
  intros H1 H2 H3 H4 run. unfold main. rewrite H1, H2, H3, H4. cbn [andb negb].
  fold run. destruct run as [o [r|e]]; [done|]. cbn [value output fst snd].
  destruct e; cbn; eauto.
Qed.

Lemma main_no_combined_error fs args :
  Forall (λ o, ¬ is_combined_error o) (main fs args).1.
Proof.
  unfold main.
  destruct (path_exists fs (hard_drive_path args)),
    (path_exists fs (server_path args)); cbn [andb negb fst];
    try (repeat constructor; not_combined_error).
  destruct (path_isdir fs (hard_drive_path args)),
    (path_isdir fs (server_path args)); cbn [andb negb fst];
    try (repeat constructor; not_combined_error).
  pose proof (compare_directories_no_combined_error fs (verbose args)
    (hard_drive_path args) (server_path args)) as Hrun.
  destruct (compare_directories _ _ _ _) as [o [r|e]]; [done|].
  cbn [output fst] in Hrun.
  destruct e; cbn; rewrite Forall_app; (split; [done|]);
    repeat constructor; not_combined_error.
Qed.

(** ** The report *)

(** The counters and lists of the report, read off the source files in
    sorted order. *)
Lemma report_spec hard_drive_files server_files :
  let sorted := sorted_items hard_drive_files in
  let st := reconcile server_files init_stats sorted in
  let outcome := classify server_files in
  missing_files st = length (filter (λ i, is_Missing (outcome i)) sorted)
  ∧ identical_files st = length (filter (λ i, is_SizeMatch (outcome i)) sorted)
  ∧ size_mismatch_files st
    = length (filter (λ i, is_SizeMismatch (outcome i)) sorted)
  ∧ missing_file_details st = filter (λ i, is_Missing (outcome i)) sorted
  ∧ mismatch_file_details st
    = omap (λ i, match outcome i with
                 | SizeMismatch c => Some (i, c)
                 | _ => None
                 end) sorted.
Proof.
  intros sorted st outcome.
  destruct (reconcile_spec server_files sorted init_stats)
    as (H1 & H2 & H3 & H4 & H5).
  by split_and!.
Qed.

Lemma report_counts_sum hard_drive_files server_files :
  let st := reconcile server_files init_stats (sorted_items hard_drive_files) in
  (missing_files st + identical_files st + size_mismatch_files st)%nat
  = PyDict.len hard_drive_files.
Proof.
  intros st.
  destruct (report_spec hard_drive_files server_files) as (H1 & H2 & H3 & _).
  fold st in H1, H2, H3. rewrite H1, H2, H3.
  rewrite <-outcome_partition. apply sorted_items_length.
Qed.

(** A run that returns has gone through both scans and the
    comparison of their indexes. *)
Lemma compare_directories_Ok fs verbose hd sv report :
  value (compare_directories fs verbose hd sv) = Ok report →
  ∃ hard_drive_files server_files,
    value (get_all_files_recursive fs verbose hd) = Ok hard_drive_files
    ∧ value (get_all_files_recursive fs verbose sv) = Ok server_files
    ∧ value (compare_indexes hard_drive_files server_files) = Ok report.
Proof.
  unfold compare_directories. intros Hv.
  do 5 apply value_bind_Ok_inv in Hv as (? & _ & Hv).
  apply value_bind_Ok_inv in Hv as (h & Hh & Hv).
  do 2 apply value_bind_Ok_inv in Hv as (? & _ & Hv).
  apply value_bind_Ok_inv in Hv as (s & Hs & Hv).
  apply value_bind_Ok_inv in Hv as (? & _ & Hv).
  eauto.
Qed.

Lemma StronglySorted_paths_strict (l : list (string * Z)) :
  StronglySorted tuple_le l → NoDup l.*1 →
  StronglySorted (strict String.le) l.*1.
Proof.
  induction 1 as [|x l Hl IH Hx]; csimpl; [constructor|].
  intros [Hnin Hnd]%NoDup_cons. constructor; [by apply IH|].
  apply Forall_fmap, Forall_forall. intros y Hy. simpl.
  apply tuple_le_strict; [by eapply Forall_forall in Hx|].
  intros E. apply Hnin. rewrite E. apply list_elem_of_fmap. eauto.
Qed.

(** ** The program on a console that refuses lines *)

Lemma print_on_returns console o : returns_as (print_on console o) (print o).
Proof. intros []. unfold print_on. by destruct (console o). Qed.

Lemma returns_as_ret {A} (a : A) : returns_as (mret a : IO A) (mret a).
Proof. by intros ?. Qed.

Lemma returns_as_lift {A} (r : result A) : returns_as (lift r) (lift r).
Proof. by intros ?. Qed.

Lemma returns_as_bind {A B} (m_on m : IO A) (f_on f : A → IO B) :
  returns_as m_on m → (∀ a, returns_as (f_on a) (f a)) →
  returns_as (m_on ≫= f_on) (m ≫= f).
Proof.
  intros Hm Hf b Hb. apply value_bind_Ok_inv in Hb as (a & Ha & Hb).
  rewrite <-(Hm a Ha). destruct m_on as [o [a'|e]]; [|done].
  simpl in Ha. injection Ha as ->. by rewrite !bind_ok, (Hf a b Hb).
Qed.

Lemma returns_as_when c body_on body :
  returns_as body_on body → returns_as (when c body_on) (when c body).
Proof. by destruct c. Qed.

Lemma returns_as_for_each {S X} (body_on body : S → X → IO S) l :
  (∀ s x, returns_as (body_on s x) (body s x)) →
  ∀ s, returns_as (for_each body_on s l) (for_each body s l).
Proof.
  intros Hbody. induction l as [|x l IH]; intros s; [by intros ?|].
  rewrite !for_each_cons. by apply returns_as_bind.
Qed.

Lemma returns_as_value {A} (m_on m : IO A) :
  returns_as m_on m → returns_value m_on m.
Proof. intros Hm a Ha. by rewrite <-(Hm a Ha). Qed.

Lemma returns_value_bind {A B} (m_on m : IO A) (f_on f : A → IO B) :
  returns_value m_on m → (∀ a, returns_value (f_on a) (f a)) →
  returns_value (m_on ≫= f_on) (m ≫= f).
Proof.
  intros Hm Hf b Hb. apply value_bind_Ok_inv in Hb as (a & Ha & Hb).
  rewrite value_bind, (Hm a Ha). by apply Hf.
Qed.

Lemma returns_value_for_each {S X} (body_on body : S → X → IO S) l :
  (∀ s x, returns_value (body_on s x) (body s x)) →
  ∀ s, returns_value (for_each body_on s l) (for_each body s l).
Proof.
  intros Hbody. induction l as [|x l IH]; intros s; [by intros ?|].
  rewrite !for_each_cons. by apply returns_value_bind.
Qed.

(** Compares a computation on a console with the same computation
    with every line printed, statement by statement. *)
Ltac returns_steps :=
  repeat first
    [ apply print_on_returns
    | apply returns_as_ret
    | apply returns_as_lift
    | apply returns_as_bind; [|intros ?]
    | apply returns_as_when
    | apply returns_as_for_each; intros ? ?
    | progress lazy beta iota zeta
    | match goal with
      | |- returns_as ?m ?m => by intros ?
      | |- returns_as (if ?c then _ else _) _ => destruct c
      | |- returns_as (match ?x with _ => _ end) _ => destruct x
      end ].

Lemma count_step_on_returns console n item :
  returns_as (count_step_on console n item) (count_step n item).
Proof. unfold count_step_on, count_step. returns_steps. Qed.

Lemma check_step_on_returns console idx st item :
  returns_as (check_step_on console idx st item) (check_step idx st item).
Proof. unfold check_step_on, check_step. returns_steps. Qed.

Lemma print_summary_on_returns console h s st :
  returns_as (print_summary_on console h s st) (print_summary h s st).
Proof. unfold print_summary_on, print_summary. returns_steps. Qed.

Lemma compare_indexes_on_returns console h s :
  returns_as (compare_indexes_on console h s) (compare_indexes h s).
Proof.
  unfold compare_indexes_on, compare_indexes, check_step_on, check_step,
    print_summary_on, print_summary.
  returns_steps.
Qed.

(** An iteration of the second pass that returns leaves the state
    the iteration with every line printed leaves; it may have printed
    a warning in place of the file, when line 82 raised an [OSError]. *)
Lemma scan_step_on_returns console verbose total st item :
  returns_value (scan_step_on console verbose total st item)
    (scan_step verbose total st item).
Proof.
  intros st'. unfold scan_step_on, scan_step, is_file, is_dir, stat_st_size.
  unfold update_progress_bar_on, print_on.
  destruct (item_fault item) as [e|]; [done|].
  destruct (bool_decide (resolve (item_entry item) = Some Regular)).
  - destruct (item_stat item) as [size|e].
    + destruct verbose, (decide (total = 0%nat)) eqn:Ht; io_run;
        rewrite ?Ht;
        repeat match goal with
               | |- context [console ?o] => destruct (console o) as [[]|]
               end; io_run; try done.
    + destruct (is_OSError e) eqn:He, verbose,
        (decide (total = 0%nat)) eqn:Ht; io_run; rewrite ?He, ?Ht;
        repeat match goal with
               | |- context [console ?o] => destruct (console o) as [[]|]
               end; io_run; rewrite ?He; try done.
  - destruct (bool_decide (resolve (item_entry item) = Some Directory)),
      verbose; io_run;
        repeat match goal with
               | |- context [console ?o] => destruct (console o) as [[]|]
               end; io_run; try done.
Qed.

Lemma get_all_files_recursive_on_returns console fs verbose directory_path :
  returns_value (get_all_files_recursive_on console fs verbose directory_path)
    (get_all_files_recursive fs verbose directory_path).
Proof.
  unfold get_all_files_recursive_on, get_all_files_recursive.
  do 2 (apply returns_value_bind;
          [apply returns_as_value, print_on_returns|intros _]).
  apply returns_value_bind; [|intros total].
  { apply returns_value_for_each. intros n item.
    apply returns_as_value, count_step_on_returns. }
  apply returns_value_bind;
    [apply returns_as_value, print_on_returns|intros _].
  apply returns_value_bind; [|intros st].
  { apply returns_value_for_each. intros s item.
    apply scan_step_on_returns. }
  apply returns_as_value. returns_steps.
Qed.

(** A scan that returns, whatever the console and the flag, returns
    the index of the entries. *)
Lemma scan_on_value console fs verbose directory_path d :
  value (get_all_files_recursive_on console fs verbose directory_path) = Ok d →
  scan_result (rglob fs directory_path) = Ok d.
Proof.
  intros Hd. rewrite <-(scan_value fs verbose).
  by apply (get_all_files_recursive_on_returns console).
Qed.

Lemma bind_ext {A B} (m m' : IO A) (f g : A → IO B) :
  m = m' → (∀ a, f a = g a) → m ≫= f = m' ≫= g.
Proof.
  intros <- Hfg. destruct m as [o [a|e]]; [|done]. by rewrite !bind_ok, Hfg.
Qed.

Lemma for_each_ext {S X} (body1 body2 : S → X → IO S) l :
  (∀ s x, body1 s x = body2 s x) →
  ∀ s, for_each body1 s l = for_each body2 s l.
Proof.
  intros Hbody. induction l as [|x l IH]; intros s; [done|].
  rewrite !for_each_cons. by apply bind_ext.
Qed.

(** On the console that takes every line the functions are those
    with [print]. *)
Lemma scan_step_on_accepting verbose total st item :
  scan_step_on accepting verbose total st item
  = scan_step verbose total st item.
Proof.
  unfold scan_step_on, scan_step, stat_st_size.
  destruct (is_file item) as [[]|e]; [|done..].
  change (lift (Ok true)) with (mret true : IO bool). rewrite !bind_ret_l.
  apply bind_ext; [|done].
  destruct (item_stat item) as [size|e]; [|done].
  change (lift (Ok size)) with (mret size : IO Z). rewrite bind_ret_l.
  by destruct verbose.
Qed.

Lemma get_all_files_recursive_on_accepting fs verbose directory_path :
  get_all_files_recursive_on accepting fs verbose directory_path
  = get_all_files_recursive fs verbose directory_path.
Proof.
  unfold get_all_files_recursive_on, get_all_files_recursive.
  do 4 (apply bind_ext; [done|intros ?]).
  apply bind_ext; [|done].
  apply for_each_ext. intros. apply scan_step_on_accepting.
Qed.

Lemma compare_indexes_on_accepting h s :
  compare_indexes_on accepting h s = compare_indexes h s.
Proof. done. Qed.

Lemma compare_directories_on_accepting fs verbose hd sv :
  compare_directories_on accepting fs verbose hd sv
  = compare_directories fs verbose hd sv.
Proof.
  unfold compare_directories_on, compare_directories.
  rewrite !get_all_files_recursive_on_accepting. done.
Qed.

(** * The claims of the specification *)

(** C1 — Every run of the comparison returns; it prints, for each
    source file (the sorted list is a permutation of the source
    index), the CHECKING line followed by exactly one verdict line,
    which reports the file's outcome (Missing, SizeMatch or
    SizeMismatch), and no verdict line elsewhere; each counter is the
    number of source files with that outcome; and the Missing,
    identical and SizeMismatch counts add up to the number of files of
    the source index, which is the total the report gives.  The same
    sum holds for a whole run of [compare_directories] that
    returns. *)
Theorem one_outcome_per_source_file hard_drive_files server_files :
  let outcome := classify server_files in
  ∃ out report lines tail,
    compare_indexes hard_drive_files server_files = (out, Ok report)
    ∧ out = OLine (nl +:+ "3. COMPARING FILES:")
            :: mjoin (zip_with checking (sorted_items hard_drive_files) lines)
            ++ tail
    ∧ sorted_items hard_drive_files ≡ₚ PyDict.items hard_drive_files
    ∧ Forall2 (λ item line, reported line = Some (outcome item))
        (sorted_items hard_drive_files) lines
    ∧ Forall (λ o, reported o = None) tail
    ∧ missing_files (stats report)
      = length (filter (λ i, is_Missing (outcome i)) hard_drive_files)
    ∧ identical_files (stats report)
      = length (filter (λ i, is_SizeMatch (outcome i)) hard_drive_files)
    ∧ size_mismatch_files (stats report)
      = length (filter (λ i, is_SizeMismatch (outcome i)) hard_drive_files)
    ∧ (missing_files (stats report) + identical_files (stats report)
       + size_mismatch_files (stats report))%nat
      = PyDict.len hard_drive_files
    ∧ total_hard_drive report = PyDict.len hard_drive_files
    ∧ ∀ fs verbose hd sv r,
        value (compare_directories fs verbose hd sv) = Ok r →
        (missing_files (stats r) + identical_files (stats r)
         + size_mismatch_files (stats r))%nat
        = total_hard_drive r.
Proof.
  intros outcome.
  destruct (compare_indexes_spec hard_drive_files server_files)
    as (lines & Hrun & Hlines).
  destruct (report_spec hard_drive_files server_files)
    as (H1 & H2 & H3 & _).
  eexists _, _, lines, _. split; [exact Hrun|].
  split_and!; try done.
  - apply sorted_items_perm.
  - apply print_summary_no_verdict.
  - cbn [stats]. rewrite H1. by rewrite sorted_items_perm.
  - cbn [stats]. rewrite H2. by rewrite sorted_items_perm.
  - cbn [stats]. rewrite H3. by rewrite sorted_items_perm.
  - apply report_counts_sum.
  - intros fs verbose hd sv r (h & s & _ & _ & Hr)%compare_directories_Ok.
    destruct (compare_indexes_spec h s) as (lines' & Hrun' & _).
    rewrite Hrun' in Hr. injection Hr as <-. cbn [stats total_hard_drive].
    apply report_counts_sum.
Qed.

Lemma compare_indexes_value hard_drive_files server_files :
  value (compare_indexes hard_drive_files server_files)
  = Ok {| total_hard_drive := PyDict.len hard_drive_files;
          stats := reconcile server_files init_stats
                     (sorted_items hard_drive_files);
          total_server := PyDict.len server_files |}.
Proof.
  destruct (compare_indexes_spec hard_drive_files server_files)
    as (lines & -> & _). done.
Qed.

(** Each source file has its two lines in the trace of the run. *)
Lemma checked_in_run hard_drive_files server_files item :
  item ∈ hard_drive_files →
  ∃ line o1 o2,
    output (compare_indexes hard_drive_files server_files)
    = o1 ++ checking item line ++ o2
    ∧ reported line = Some (classify server_files item).
Proof.
  intros Hin.
  destruct (compare_indexes_spec hard_drive_files server_files)
    as (lines & -> & Hlines).
  rewrite <-(sorted_items_perm hard_drive_files) in Hin.
  destruct (checking_in_trace _ _ _ _ Hlines Hin) as (line & o1 & o2 & E & Hr).
  exists line, (OLine (nl +:+ "3. COMPARING FILES:") :: o1),
    (o2 ++ output (print_summary hard_drive_files server_files
                     (reconcile server_files init_stats
                        (sorted_items hard_drive_files)))).
  split; [|done]. cbn [output fst]. rewrite E.
  by rewrite <-!(assoc_L (++)).
Qed.

(** The name index the run builds holds, under a basename that occurs
    in the target, the target entries of that basename. *)
Lemma name_index_lookup server_files filename :
  same_name server_files filename ≠ [] →
  ∃ idx,
    for_each index_step PyDict.empty (PyDict.items server_files)
    = ([], Ok idx)
    ∧ PyDict.contains filename idx = true
    ∧ PyDict.get filename idx = Some (same_name server_files filename).
Proof.
  intros Hne. destruct (build_name_index server_files) as (idx & Hrun & Hidx).
  exists idx. split; [done|]. unfold PyDict.contains.
  by rewrite (Hidx filename), decide_False.
Qed.

(** C2 — A source file whose basename is in the name index of the
    target with at least one candidate of exactly its size gets the
    verdict IDENTICAL (SizeMatch): the line printed after its CHECKING
    line lists exactly the candidates of the name index that have its
    size, which are all the target entries of that basename and size
    and no other; the file is in neither detail list, and the name
    index holds under its basename all the same-named entries, the
    ones of other sizes included. *)
Theorem size_match_lists_exactly_the_matches
    hard_drive_files server_files p s :
  (p, s) ∈ PyDict.items hard_drive_files →
  (∃ e, e ∈ PyDict.items server_files ∧ basename e.1 = basename p ∧ e.2 = s) →
  let matches :=
    filter (λ e : string * Z, basename e.1 = basename p ∧ e.2 = s)
      server_files in
  ∃ idx candidates report line o1 o2,
    for_each index_step PyDict.empty (PyDict.items server_files)
    = ([], Ok idx)
    ∧ PyDict.get (basename p) idx = Some candidates
    ∧ matches = filter (λ e : string * Z, e.2 = s) candidates
    ∧ compare_indexes hard_drive_files server_files
      = (o1 ++ checking (p, s) line ++ o2, Ok report)
    ∧ reported line = Some (SizeMatch matches)
    ∧ (∀ e, e ∈ matches
            ↔ e ∈ PyDict.items server_files
              ∧ basename e.1 = basename p ∧ e.2 = s)
    ∧ ((p, s) ∉ missing_file_details (stats report))
    ∧ (∀ c, (p, s, c) ∉ mismatch_file_details (stats report)).
Proof.
  intros Hin Hex matches.
  pose proof (classify_size_match server_files p s Hex) as Hcl.
  fold matches in Hcl.
  destruct (name_index_lookup server_files (basename p))
    as (idx & Hidx & _ & Hget).
  { destruct Hex as (e & He & Hn & _). intros Hnil.
    by eapply filter_nil_not_elem_of; [exact Hnil|exact Hn|]. }
  destruct (checked_in_run hard_drive_files server_files (p, s) Hin)
    as (line & o1 & o2 & Hout & Hrep).
  destruct (report_spec hard_drive_files server_files)
    as (_ & _ & _ & H4 & H5).
  eexists idx, _, _, line, o1, o2. split_and!.
  - exact Hidx.
  - exact Hget.
  - unfold matches, same_name. rewrite list_filter_filter.
    apply list_filter_iff. tauto.
  - rewrite <-Hout. rewrite <-compare_indexes_value. apply io_eta.
  - by rewrite Hrep, Hcl.
  - intros e. unfold matches, PyDict.items. rewrite list_elem_of_filter. tauto.
  - cbn [stats]. rewrite H4. intros [Hm _]%list_elem_of_filter.
    by rewrite Hcl in Hm.
  - cbn [stats]. rewrite H5. intros c (i & Hi & Hc)%list_elem_of_omap.
    destruct (classify server_files i) eqn:Hi'; simplify_eq.
    by rewrite Hcl in Hi'.
Qed.

(** C3 — A source file whose basename is in the name index of the
    target with no candidate of exactly its size gets the verdict
    SIZE_DIFF (SizeMismatch): the line printed after its CHECKING line
    and the entry recorded in the mismatch details both carry the full
    list the name index holds under that basename, which is the list
    of all target entries sharing the basename, whatever their sizes;
    the entry is printed in the details of the summary. *)
Theorem size_mismatch_lists_all_same_named
    hard_drive_files server_files p s :
  (p, s) ∈ PyDict.items hard_drive_files →
  (∃ e, e ∈ PyDict.items server_files ∧ basename e.1 = basename p) →
  (∀ e, e ∈ PyDict.items server_files → basename e.1 = basename p → e.2 ≠ s) →
  let candidates := same_name server_files (basename p) in
  ∃ idx report line o1 o2,
    for_each index_step PyDict.empty (PyDict.items server_files)
    = ([], Ok idx)
    ∧ PyDict.get (basename p) idx = Some candidates
    ∧ compare_indexes hard_drive_files server_files
      = (o1 ++ checking (p, s) line ++ o2, Ok report)
    ∧ reported line = Some (SizeMismatch candidates)
    ∧ (∀ e, e ∈ candidates
            ↔ e ∈ PyDict.items server_files ∧ basename e.1 = basename p)
    ∧ (p, s, candidates) ∈ mismatch_file_details (stats report)
    ∧ (∀ c, (p, s, c) ∈ mismatch_file_details (stats report) → c = candidates)
    ∧ ((p, s) ∉ missing_file_details (stats report))
    ∧ ODetailSizeDiff p s candidates
      ∈ output (compare_indexes hard_drive_files server_files).
Proof.
  intros Hin Hex Hsizes candidates.
  pose proof (classify_size_mismatch server_files p s Hex Hsizes) as Hcl.
  fold candidates in Hcl.
  destruct (name_index_lookup server_files (basename p))
    as (idx & Hidx & _ & Hget).
  { destruct Hex as (e & He & Hn). intros Hnil.
    by eapply filter_nil_not_elem_of; [exact Hnil|exact Hn|]. }
  destruct (checked_in_run hard_drive_files server_files (p, s) Hin)
    as (line & o1 & o2 & Hout & Hrep).
  destruct (report_spec hard_drive_files server_files)
    as (_ & _ & H3 & H4 & H5).
  assert (Hdet : (p, s, candidates)
                 ∈ mismatch_file_details
                     (reconcile server_files init_stats
                        (sorted_items hard_drive_files))).
  { rewrite H5. apply list_elem_of_omap. exists (p, s).
    split; [by rewrite sorted_items_perm|]. by rewrite Hcl. }
  eexists idx, _, line, o1, o2. split_and!.
  - exact Hidx.
  - exact Hget.
  - rewrite <-Hout. rewrite <-compare_indexes_value. apply io_eta.
  - by rewrite Hrep, Hcl.
  - intros e. unfold candidates, same_name, PyDict.items.
    rewrite list_elem_of_filter. tauto.
  - exact Hdet.
  - cbn [stats]. rewrite H5. intros c (i & Hi & Hc)%list_elem_of_omap.
    destruct (classify server_files i) eqn:Hi'; simplify_eq.
    rewrite Hcl in Hi'. by simplify_eq.
  - cbn [stats]. rewrite H4. intros [Hm _]%list_elem_of_filter.
    by rewrite Hcl in Hm.
  - destruct (compare_indexes_spec hard_drive_files server_files)
      as (lines & -> & _). cbn [output fst].
    rewrite print_summary_output.
    apply elem_of_cons. right. apply elem_of_app. right.
    apply elem_of_app. right. apply elem_of_app. right.
    rewrite bool_decide_true.
    + apply elem_of_cons. right.
      apply list_elem_of_fmap. by exists (p, s, candidates).
    + rewrite H3, <-mismatch_details_paths, <-H5, length_fmap.
      apply list_elem_of_lookup in Hdet as [i Hi].
      apply lookup_lt_Some in Hi. lia.
Qed.

(** The scenarios of the specification (§8). *)
Example scenario_1_missing :
  value (compare_indexes [("a.txt", 100)] [])
  = Ok {| total_hard_drive := 1;
          stats := {| missing_files := 1; size_mismatch_files := 0;
                      identical_files := 0;
                      missing_file_details := [("a.txt", 100)];
                      mismatch_file_details := [] |};
          total_server := 0 |}.
Proof. vm_compute. reflexivity. Qed.

Example scenario_2_moved_file_matches :
  compare_indexes [("a.txt", 100)] [("sub/a.txt", 100)]
  = ([OLine (nl +:+ "3. COMPARING FILES:"); OLine "CHECKING: a.txt";
      OIdentical "a.txt" "sub/a.txt" 100;
      OLine (nl +:+ str_mul "=" 80); OLine "SUMMARY:";
      OSummaryTotalHardDrive 1; OSummaryMissing 0; OSummarySizeDiff 0;
      OSummaryIdentical 1; OSummaryTotalServer 1],
     Ok {| total_hard_drive := 1;
           stats := {| missing_files := 0; size_mismatch_files := 0;
                       identical_files := 1;
                       missing_file_details := [];
                       mismatch_file_details := [] |};
           total_server := 1 |}).
Proof. vm_compute. reflexivity. Qed.

Example scenario_3_size_mismatch :
  stats <$> value_option (compare_indexes [("a.txt", 100)] [("a.txt", 50)])
  = Some {| missing_files := 0; size_mismatch_files := 1;
            identical_files := 0;
            missing_file_details := [];
            mismatch_file_details := [("a.txt", 100, [("a.txt", 50)])] |}.
Proof. vm_compute. reflexivity. Qed.

Example scenario_4_source_root_missing :
  main example_fs (example_args "/nowhere" "/server" false)
  = ([OLine "ERROR: Hard drive path '/nowhere' does not exist."], 1).
Proof. vm_compute. reflexivity. Qed.

Example scenario_5_only_the_matching_candidate :
  output (compare_indexes [("a.txt", 100)]
            [("x/a.txt", 100); ("y/a.txt", 50)])
  !! 2%nat
  = Some (OIdentical "a.txt" "x/a.txt" 100).
Proof. vm_compute. reflexivity. Qed.

(** A whole run over the example trees: the unreadable file [c] is
    left out, [b.txt] differs in size, [sub/a.txt] is found under
    [x/]. *)
Example example_run :
  (main example_fs (example_args "/hd" "/server" false)).2 = 0
  ∧ value (compare_directories example_fs false "/hd" "/server")
    = Ok {| total_hard_drive := 2;
            stats := {| missing_files := 0; size_mismatch_files := 1;
                        identical_files := 1;
                        missing_file_details := [];
                        mismatch_file_details :=
                          [("b.txt", 5, [("b.txt", 6)])] |};
            total_server := 3 |}.
Proof. split; vm_compute; reflexivity. Qed.

(** C4 — The comparison goes through the source files in ascending
    lexicographic order of their relative paths: the CHECKING lines
    come in the order of [sorted], whose paths are a permutation of the
    keys of the source index in ascending order (strictly ascending
    for an index, whose keys are distinct); the Missing and
    SizeMismatch detail lists of the report are the files of those
    outcomes in that same order, so their paths ascend too, and the
    summary prints them in the order of the lists. *)
Theorem comparison_in_path_order hard_drive_files server_files :
  let sorted := sorted_items (PyDict.items hard_drive_files) in
  let outcome := classify server_files in
  ∃ report lines tail,
    compare_indexes hard_drive_files server_files
    = (OLine (nl +:+ "3. COMPARING FILES:")
         :: mjoin (zip_with checking sorted lines) ++ tail,
       Ok report)
    ∧ length lines = length sorted
    ∧ sorted.*1 ≡ₚ PyDict.keys hard_drive_files
    ∧ StronglySorted String.le sorted.*1
    ∧ (PyDict.wf hard_drive_files → StronglySorted (strict String.le) sorted.*1)
    ∧ missing_file_details (stats report)
      = filter (λ i, is_Missing (outcome i)) sorted
    ∧ (mismatch_file_details (stats report)).*1
      = filter (λ i, is_SizeMismatch (outcome i)) sorted
    ∧ StronglySorted String.le (missing_file_details (stats report)).*1
    ∧ StronglySorted String.le (mismatch_file_details (stats report)).*1.*1
    ∧ tail = output (print_summary hard_drive_files server_files (stats report))
    ∧ ∃ counts,
        length counts = 7%nat
        ∧ tail
          = counts
            ++ (if bool_decide (0 < missing_files (stats report))%nat
                then OLine (nl +:+ "Missing files details:")
                     :: ((λ '(missing_file, size),
                            ODetailMissing missing_file size)
                           <$> missing_file_details (stats report))
                else [])
            ++ (if bool_decide (0 < size_mismatch_files (stats report))%nat
                then OLine (nl +:+ "Size mismatch files details:")
                     :: ((λ '(mismatch_file, hd_size, server_instances),
                            ODetailSizeDiff mismatch_file hd_size
                              server_instances)
                           <$> mismatch_file_details (stats report))
                else []).
Proof.
  intros sorted outcome. unfold PyDict.items in sorted.
  destruct (compare_indexes_spec hard_drive_files server_files)
    as (lines & Hrun & Hlines).
  destruct (report_spec hard_drive_files server_files)
    as (_ & _ & _ & H4 & H5).
  fold sorted in Hrun, Hlines, H4, H5. fold outcome in H4, H5.
  eexists _, lines, _. split; [exact Hrun|]. cbn [stats].
  assert (Hmis : (mismatch_file_details
                    (reconcile server_files init_stats sorted)).*1
                 = filter (λ i, is_SizeMismatch (outcome i)) sorted).
  { rewrite H5. apply mismatch_details_paths. }
  split_and!.
  - symmetry. by eapply Forall2_length.
  - unfold sorted, PyDict.keys. by rewrite sorted_items_perm.
  - apply sorted_items_paths_sorted.
  - intros Hwf. apply StronglySorted_paths_strict.
    + apply sorted_items_sorted.
    + unfold sorted. by rewrite sorted_items_perm.
  - exact H4.
  - exact Hmis.
  - rewrite H4. apply (StronglySorted_fmap _ tuple_le);
      [intros ??; apply tuple_le_fst|].
    apply StronglySorted_filter, sorted_items_sorted.
  - rewrite Hmis. apply (StronglySorted_fmap _ tuple_le);
      [intros ??; apply tuple_le_fst|].
    apply StronglySorted_filter, sorted_items_sorted.
  - done.
  - eexists. split; [|apply print_summary_output]. done.
Qed.

(** C5 — The exit status is 0 or 1.  It is 0 when both paths are
    directories and the comparison returns, whatever its report
    counts.  It is 1, with one error line carrying the failing path
    and nothing scanned, when the hard drive path does not exist, when
    the server path does not exist, when the hard drive path is not a
    directory and when the server path is not a directory; the four
    error lines differ from one another whatever the paths, and each
    determines the path it carries.  It is 1 when the comparison
    raises: [PermissionError] (the permission line is printed),
    [KeyboardInterrupt] (the cancellation line), any other exception
    (the unexpected-error line). *)
Theorem main_exit_status fs args :
  let hd := hard_drive_path args in
  let sv := server_path args in
  let run := compare_directories fs (verbose args) hd sv in
  let valid := path_exists fs hd && path_exists fs sv
               && path_isdir fs hd && path_isdir fs sv in
  (exit_status (main fs args) = 0 ∨ exit_status (main fs args) = 1)
  ∧ (exit_status (main fs args) = 0
     ↔ valid = true ∧ ∃ report, value run = Ok report)
  ∧ (valid = true → ∀ report, value run = Ok report →
     main fs args = (output run, 0))
  ∧ (path_exists fs hd = false →
     main fs args = ([OLine (err_hard_drive_not_exist hd)], 1))
  ∧ (path_exists fs hd = true → path_exists fs sv = false →
     main fs args = ([OLine (err_server_not_exist sv)], 1))
  ∧ (path_exists fs hd = true → path_exists fs sv = true →
     path_isdir fs hd = false →
     main fs args = ([OLine (err_hard_drive_not_dir hd)], 1))
  ∧ (path_exists fs hd = true → path_exists fs sv = true →
     path_isdir fs hd = true → path_isdir fs sv = false →
     main fs args = ([OLine (err_server_not_dir sv)], 1))
  ∧ (∀ p q,
       err_hard_drive_not_exist p ≠ err_server_not_exist q
       ∧ err_hard_drive_not_exist p ≠ err_hard_drive_not_dir q
       ∧ err_hard_drive_not_exist p ≠ err_server_not_dir q
       ∧ err_server_not_exist p ≠ err_hard_drive_not_dir q
       ∧ err_server_not_exist p ≠ err_server_not_dir q
       ∧ err_hard_drive_not_dir p ≠ err_server_not_dir q)
  ∧ (∀ p q,
       (err_hard_drive_not_exist p = err_hard_drive_not_exist q → p = q)
       ∧ (err_server_not_exist p = err_server_not_exist q → p = q)
       ∧ (err_hard_drive_not_dir p = err_hard_drive_not_dir q → p = q)
       ∧ (err_server_not_dir p = err_server_not_dir q → p = q))
  ∧ (valid = true → ∀ e, value run = Raise e →
     exit_status (main fs args) = 1
     ∧ main fs args
       = (output run
            ++ [if is_PermissionError e then OErrPermission e
                else if is_KeyboardInterrupt e
                     then OLine (nl +:+ "Operation cancelled by user.")
                     else OErrUnexpected e],
          1)).
Proof.
  intros hd sv run valid.
  assert (Hvalid : valid = true →
            main fs args
            = match value run with
              | Ok _ => (output run, 0)
              | Raise e =>
                  (output run
                     ++ [if is_PermissionError e then OErrPermission e
                         else if is_KeyboardInterrupt e
                              then OLine (nl +:+ "Operation cancelled by user.")
                              else OErrUnexpected e], 1)
              end).
  { unfold valid. intros (((H1 & H2)%andb_prop & H3)%andb_prop & H4)%andb_prop.
    unfold main. fold hd sv. rewrite H1, H2, H3, H4. cbn [andb negb].
    fold run. destruct run as [o [r|e]]; [done|]. by destruct e. }
  assert (Hinvalid : valid = false → exit_status (main fs args) = 1).
  { unfold valid, main. fold hd sv.
    by destruct (path_exists fs hd), (path_exists fs sv),
      (path_isdir fs hd), (path_isdir fs sv). }
  split_and!.
  - destruct valid eqn:Hv.
    + rewrite Hvalid by done. destruct (value run); [by left|by right].
    + right. by apply Hinvalid.
  - destruct valid eqn:Hv.
    + rewrite Hvalid by done. destruct (value run) as [r|e].
      * split; [eauto|done].
      * split; [done|]. by intros [_ [? ?]].
    + rewrite Hinvalid by done. split; [done|]. by intros [? _].
  - intros Hv report Hr. by rewrite Hvalid, Hr.
  - apply main_hard_drive_not_exist.
  - apply main_server_not_exist.
  - apply main_hard_drive_not_dir.
  - apply main_server_not_dir.
  - apply error_lines_distinct.
  - apply error_lines_name_path.
  - intros Hv e He. rewrite Hvalid, He by done. done.
Qed.

(** C10 — When neither path exists the run prints the hard drive
    line of the existence check, that line only, and exits; when both
    exist and neither is a directory it prints the hard drive line of
    the directory check, that line only, and exits; and no run, on any
    file system and any arguments, prints the line of either combined
    branch. *)
Theorem combined_error_branches_unreachable fs args :
  (path_exists fs (hard_drive_path args) = false →
   path_exists fs (server_path args) = false →
   main fs args
   = ([OLine (err_hard_drive_not_exist (hard_drive_path args))], 1))
  ∧ (path_exists fs (hard_drive_path args) = true →
     path_exists fs (server_path args) = true →
     path_isdir fs (hard_drive_path args) = false →
     path_isdir fs (server_path args) = false →
     main fs args
     = ([OLine (err_hard_drive_not_dir (hard_drive_path args))], 1))
  ∧ (OLine "ERROR: Both directory paths do not exist." ∉ (main fs args).1)
  ∧ (OLine "ERROR: The paths entered are not directories."
     ∉ (main fs args).1).
Proof.
  pose proof (main_no_combined_error fs args) as Hlive.
  split_and!.
  - intros H _. by apply main_hard_drive_not_exist.
  - intros H1 H2 H3 _. by apply main_hard_drive_not_dir.
  - intros Hin. eapply Forall_forall in Hlive; [|exact Hin].
    apply Hlive. by left.
  - intros Hin. eapply Forall_forall in Hlive; [|exact Hin].
    apply Hlive. by right.
Qed.

(** Scenario 5 as an instance of C2. *)
Lemma size_match_witness :
  ∃ line o1 o2,
    output (compare_indexes [("sub/a.txt", 100)]
              [("x/a.txt", 100); ("y/a.txt", 50)])
    = o1 ++ checking ("sub/a.txt", 100) line ++ o2
    ∧ reported line = Some (SizeMatch [("x/a.txt", 100)]).
Proof.
  destruct (size_match_lists_exactly_the_matches
              [("sub/a.txt", 100)] [("x/a.txt", 100); ("y/a.txt", 50)]
              "sub/a.txt" 100)
    as (idx & cands & report & line & o1 & o2 & _ & _ & _ & Hrun & Hrep & _).
  - apply list_elem_of_here.
  - exists ("x/a.txt", 100). split_and!; [apply list_elem_of_here| |];
      reflexivity.
  - exists line, o1, o2. split; [by rewrite Hrun|exact Hrep].
Defined.

(** Two same-named target files of other sizes, as an instance of
    C3. *)
Lemma size_mismatch_witness :
  ∃ report,
    value (compare_indexes [("sub/a.txt", 100)]
             [("x/a.txt", 10); ("b.txt", 100); ("y/a.txt", 50)])
    = Ok report
    ∧ ("sub/a.txt", 100, [("x/a.txt", 10); ("y/a.txt", 50)])
      ∈ mismatch_file_details (stats report).
Proof.
  destruct (size_mismatch_lists_all_same_named
              [("sub/a.txt", 100)]
              [("x/a.txt", 10); ("b.txt", 100); ("y/a.txt", 50)]
              "sub/a.txt" 100)
    as (idx & report & line & o1 & o2 & _ & _ & Hrun & _ & _ & Hdet & _).
  - apply list_elem_of_here.
  - exists ("x/a.txt", 10). split; [apply list_elem_of_here|reflexivity].
  - intros e He Hname. unfold PyDict.items in He.
    repeat (apply elem_of_cons in He as [->|He]); try done.
    by apply elem_of_nil in He.
  - exists report. split; [by rewrite Hrun|exact Hdet].
Defined.

(** C6 — A file whose size query raises [PermissionError] or another
    [OSError] is skipped: the iteration over it returns and leaves the
    index as it was; the scan returns or raises exactly what the scan
    of the same entries without the file does, so the entries after it
    are gone through; the returned index has no record under the
    file's path when the traversal yields each path once; without
    [--verbose] no warning is printed at all, and with it a scan that
    returns has printed the warning for the file. *)
Theorem unreadable_file_is_skipped
    fs fs' verbose directory_path l1 item l2 e :
  rglob fs directory_path = l1 ++ item :: l2 →
  rglob fs' directory_path = l1 ++ l2 →
  is_file item = Ok true →
  item_stat item = Raise e →
  is_OSError e = true →
  (∀ total st, ∃ st',
     value (scan_step verbose total st item) = Ok st'
     ∧ files_info st' = files_info st)
  ∧ value (get_all_files_recursive fs verbose directory_path)
    = value (get_all_files_recursive fs' verbose directory_path)
  ∧ (∀ d, value (get_all_files_recursive fs verbose directory_path) = Ok d →
          NoDup (item_rel <$> rglob fs directory_path) →
          item_rel item ∉ PyDict.keys d)
  ∧ (verbose = false →
     Forall (λ o, is_warning o = false)
       (output (get_all_files_recursive fs verbose directory_path)))
  ∧ (verbose = true →
     ∀ d, value (get_all_files_recursive fs verbose directory_path) = Ok d →
          OWarning (item_rel item) e
          ∈ output (get_all_files_recursive fs verbose directory_path)).
Proof.
  intros Hl Hl' Hf Hs He. split_and!.
  - intros total st.
    pose proof (scan_step_value verbose total st item) as Hstep.
    rewrite Hf, Hs, He in Hstep.
    destruct (value (scan_step verbose total st item)) as [st'|]; [|done].
    by exists st'.
  - rewrite !scan_value, Hl, Hl'. by eapply scan_result_skip.
  - intros d Hd Hnd. rewrite scan_value in Hd.
    rewrite Hl in *. rewrite (scan_result_skip _ _ _ _ Hf Hs He) in Hd.
    assert (Hnd' : NoDup (item_rel <$> l1 ++ l2)).
    { rewrite fmap_app in *. csimpl in Hnd.
      apply NoDup_app in Hnd as (H1 & H2 & [_ H3]%NoDup_cons).
      apply NoDup_app. split_and!; [done| |done].
      intros x Hx Hx'. apply (H2 x Hx). by right. }
    rewrite (scan_result_fresh _ _ Hnd' Hd).
    unfold PyDict.keys. intros ([k v] & Hk & Hin)%list_elem_of_fmap.
    apply list_elem_of_omap in Hin as (it & Hit & Hrec).
    apply recorded_rel in Hrec. simpl in Hk, Hrec.
    assert (Hrel : item_rel item = item_rel it) by congruence.
    rewrite fmap_app in Hnd. csimpl in Hnd.
    apply NoDup_app in Hnd as (_ & H2 & [H3 _]%NoDup_cons).
    apply elem_of_app in Hit as [Hit|Hit].
    + apply (H2 (item_rel item)); [|by left].
      rewrite Hrel. apply list_elem_of_fmap. eauto.
    + apply H3. rewrite Hrel. apply list_elem_of_fmap. eauto.
  - intros ->. apply scan_quiet.
  - intros -> d Hd. by eapply scan_verbose_warns.
Qed.

(** The unreadable file [c] of the example tree, as an instance of
    C6. *)
Lemma unreadable_file_witness :
  value (get_all_files_recursive example_fs true "/hd")
  = Ok [("b.txt", 5); ("sub/a.txt", 100)]
  ∧ OWarning "c" PermissionError
    ∈ output (get_all_files_recursive example_fs true "/hd").
Proof.
  destruct (unreadable_file_is_skipped example_fs
              (example_trees (example_listing hd_tree_without_c)) true "/hd"
              hd_tree_without_c (unreadable "c" PermissionError) []
              PermissionError)
    as (_ & Hv & _ & _ & Hw); try reflexivity.
  split.
  - rewrite Hv. vm_compute. reflexivity.
  - apply (Hw eq_refl [("b.txt", 5); ("sub/a.txt", 100)]).
    rewrite Hv. vm_compute. reflexivity.
Defined.

(** What the indexer does record: every record of the returned index
    is the path and size of an entry that [stat()] resolves to a
    regular file.  Directories, devices, pipes, sockets and dangling
    links, and links to any of them, contribute nothing. *)
Lemma index_records_resolved_regular_files fs verbose directory_path d k v :
  value (get_all_files_recursive fs verbose directory_path) = Ok d →
  (k, v) ∈ d →
  ∃ item, item ∈ rglob fs directory_path
          ∧ item_rel item = k ∧ item_stat item = Ok v
          ∧ resolve (item_entry item) = Some Regular.
Proof.
  rewrite scan_value. unfold scan_result.
  destruct (first_fault _); [done|]. intros Hd Hin.
  destruct (index_from_elem _ _ _ _ Hd Hin) as [?%elem_of_nil|(it & Hit & Hr)];
    [done|].
  exists it. split; [done|]. unfold recorded, is_file in Hr.
  destruct (item_fault it); [done|].
  destruct (bool_decide (resolve (item_entry it) = Some Regular)) eqn:Hreg;
    [|done].
  apply bool_decide_eq_true in Hreg.
  destruct (item_stat it); [|done]. by simplify_eq.
Qed.

(** C7 — A symbolic link to a regular file is recorded as a file:
    [is_file()] and [stat()] follow the link, so the index returned
    for a directory that holds such a link has a record under the
    link's own path, with the size of the file it points to, with and
    without [--verbose].  The module docstring says the script does
    not follow symbolic links. *)
Theorem symlink_to_file_is_indexed :
  [link_to_file "link" 5; regular "f" 7] = rglob example_fs "/links"
  ∧ item_entry (link_to_file "link" 5) = Symlink (Some Regular)
  ∧ value (get_all_files_recursive example_fs false "/links")
    = Ok [("link", 5); ("f", 7)]
  ∧ value (get_all_files_recursive example_fs true "/links")
    = Ok [("link", 5); ("f", 7)].
Proof. split_and!; vm_compute; reflexivity. Qed.

(** C8 — The index the indexer returns does not depend on
    [--verbose] nor on what the console shows: a scan with the flag
    and a scan without it, each on a console of its own, return the
    same index whenever both return, the index of the entries alone
    ([scan_result]); so does every scan that returns, and the scan on
    which every line is printed does return it.  Whether a scan
    returns is another matter: a line the console refuses ends it
    ([verbose_scan_raises_where_quiet_returns]). *)
Theorem returned_index_independent_of_verbose
    console1 console2 fs directory_path d1 d2 :
  value (get_all_files_recursive_on console1 fs true directory_path) = Ok d1 →
  value (get_all_files_recursive_on console2 fs false directory_path) = Ok d2 →
  d1 = d2
  ∧ scan_result (rglob fs directory_path) = Ok d1
  ∧ (∀ console verbose d,
       value (get_all_files_recursive_on console fs verbose directory_path)
       = Ok d → d = d1)
  ∧ (∀ verbose,
       value (get_all_files_recursive_on accepting fs verbose directory_path)
       = Ok d1).
Proof.
  intros H1%scan_on_value H2%scan_on_value. split_and!.
  - congruence.
  - done.
  - intros console verbose d Hd%scan_on_value. congruence.
  - intros verbose. by rewrite get_all_files_recursive_on_accepting, scan_value.
Qed.

(** The directory with the odd name, scanned with [--verbose] on a
    console that takes every line and without it on one that cannot
    show the name, as an instance of C8. *)
Lemma returned_index_witness :
  value (get_all_files_recursive_on accepting odd_fs true "/server")
  = Ok [("b.txt", 5); (odd_name, 3)]
  ∧ value (get_all_files_recursive_on (refusing odd_name) odd_fs false "/server")
    = Ok [("b.txt", 5); (odd_name, 3)]
  ∧ scan_result (rglob odd_fs "/server") = Ok [("b.txt", 5); (odd_name, 3)].
Proof.
  assert (H1 : value (get_all_files_recursive_on accepting odd_fs true "/server")
               = Ok [("b.txt", 5); (odd_name, 3)])
    by (vm_compute; reflexivity).
  assert (H2 : value (get_all_files_recursive_on (refusing odd_name) odd_fs
                        false "/server")
               = Ok [("b.txt", 5); (odd_name, 3)])
    by (vm_compute; reflexivity).
  destruct (returned_index_independent_of_verbose accepting (refusing odd_name)
              odd_fs "/server" _ _ H1 H2) as (_ & H3 & _).
  split_and!; [exact H1|exact H2|exact H3].
Defined.

(** With [--verbose] the indexer prints the name of every file: on a
    console that cannot show one of them the scan raises at line 82,
    where the scan without the flag returns the index. *)
Lemma verbose_scan_raises_where_quiet_returns :
  value (get_all_files_recursive_on (refusing odd_name) odd_fs true "/server")
  = Raise RuntimeError
  ∧ value (get_all_files_recursive_on (refusing odd_name) odd_fs false "/server")
    = Ok [("b.txt", 5); (odd_name, 3)].
Proof. split; vm_compute; reflexivity. Qed.

(** The comparison reads the source index through [sorted] and [len]
    alone: two source indexes with the same records give the same
    trace and the same report. *)
Lemma compare_indexes_source_order d1 d2 server_files :
  d1 ≡ₚ d2 → compare_indexes d1 server_files = compare_indexes d2 server_files.
Proof.
  intros Hperm. unfold compare_indexes, print_summary, PyDict.items, PyDict.len.
  by rewrite (sorted_items_unique d1 d2 Hperm), (Permutation_length Hperm).
Qed.

(** C9 — Two scans of a directory whose entries are the same (in
    whatever order the two traversals yield them, each path once)
    agree: when one returns an index, the other returns an index with
    the same records and distinct keys, the very same index when the
    order is the same, whatever the verbose flags; and the comparison
    of either index with a target index prints the same trace and
    gives the same report. *)
Theorem index_and_report_deterministic
    fs1 fs2 verbose1 verbose2 directory_path d1 :
  rglob fs1 directory_path ≡ₚ rglob fs2 directory_path →
  NoDup (item_rel <$> rglob fs1 directory_path) →
  value (get_all_files_recursive fs1 verbose1 directory_path) = Ok d1 →
  ∃ d2,
    value (get_all_files_recursive fs2 verbose2 directory_path) = Ok d2
    ∧ d1 ≡ₚ d2
    ∧ PyDict.wf d1 ∧ PyDict.wf d2
    ∧ (rglob fs1 directory_path = rglob fs2 directory_path → d1 = d2)
    ∧ (∀ server_files,
         compare_indexes d1 server_files = compare_indexes d2 server_files).
Proof.
  rewrite !scan_value. intros Hperm Hnd Hd1.
  assert (Hnd2 : NoDup (item_rel <$> rglob fs2 directory_path))
    by by rewrite <-Hperm.
  destruct (proj2 (scan_result_Ok_iff (rglob fs2 directory_path))) as [d2 Hd2].
  { rewrite <-Hperm. apply scan_result_Ok_iff. eauto. }
  exists d2.
  assert (Hd : d1 ≡ₚ d2).
  { rewrite (scan_result_fresh _ _ Hnd Hd1), (scan_result_fresh _ _ Hnd2 Hd2).
    by rewrite Hperm. }
  split_and!; [done..| | | |].
  - by apply (scan_result_wf (rglob fs1 directory_path)).
  - by apply (scan_result_wf (rglob fs2 directory_path)).
  - intros E. rewrite E in Hd1. congruence.
  - intros server_files. by apply compare_indexes_source_order.
Qed.

Lemma hd_tree_reordered_perm : hd_tree ≡ₚ hd_tree_reordered.
Proof.
  unfold hd_tree, hd_tree_reordered.
  etrans; [apply perm_swap|]. apply perm_skip, perm_swap.
Qed.

(** The example tree traversed in two orders, as an instance of C9. *)
Lemma index_deterministic_witness :
  ∃ d2,
    value (get_all_files_recursive
             (example_trees (example_listing hd_tree_reordered)) false "/hd")
    = Ok d2
    ∧ [("b.txt", 5); ("sub/a.txt", 100)] ≡ₚ d2.
Proof.
  destruct (index_and_report_deterministic example_fs
              (example_trees (example_listing hd_tree_reordered))
              true false "/hd" [("b.txt", 5); ("sub/a.txt", 100)])
    as (d2 & Hd2 & Hperm & _).
  - apply hd_tree_reordered_perm.
  - apply (bool_decide_unpack (NoDup _)). vm_compute. exact I.
  - vm_compute. reflexivity.
  - exists d2. split; [exact Hd2|exact Hperm].
Defined.

(** Runs that end with status 1. *)
Example permission_error_escapes_the_indexer :
  value (get_all_files_recursive example_fs false "/locked")
  = Raise PermissionError
  ∧ exit_status (main example_fs (example_args "/locked" "/server" false)) = 1
  ∧ last (main example_fs (example_args "/locked" "/server" false)).1
    = Some (OErrPermission PermissionError).
Proof. split_and!; vm_compute; reflexivity. Qed.

Example interruption_ends_the_run :
  exit_status (main example_fs (example_args "/hd" "/interrupted" true)) = 1
  ∧ last (main example_fs (example_args "/hd" "/interrupted" true)).1
    = Some (OLine (nl +:+ "Operation cancelled by user.")).
Proof. split_and!; vm_compute; reflexivity. Qed.

Example both_paths_missing :
  main example_fs (example_args "/nowhere" "/nowhere" false)
  = ([OLine "ERROR: Hard drive path '/nowhere' does not exist."], 1).
Proof. vm_compute. reflexivity. Qed.

Example both_paths_not_directories :
  main example_fs (example_args "/etc/passwd" "/etc/passwd" false)
  = ([OLine "ERROR: Hard drive path '/etc/passwd' is not a directory."], 1).
Proof. vm_compute. reflexivity. Qed.

(** * Further properties of the code *)

(** ** Outcomes, by name and size *)

Lemma same_name_nil server_files name :
  same_name server_files name = []
  ↔ ∀ e, e ∈ server_files → basename e.1 ≠ name.
Proof.
  unfold same_name. split.
  - intros Hnil e He Hn. by eapply filter_nil_not_elem_of; [exact Hnil|exact Hn|].
  - intros Hall. apply elem_of_nil_inv.
    intros e [Hn He]%list_elem_of_filter. by eapply Hall.
Qed.

Lemma name_absent_iff (server_files : list (string * Z)) name :
  (∀ e, e ∈ server_files → basename e.1 ≠ name)
  ↔ name ∉ basename <$> PyDict.keys server_files.
Proof.
  unfold PyDict.keys. split.
  - intros Hall (k & -> & ([k' v] & -> & He)%list_elem_of_fmap)%list_elem_of_fmap.
    by eapply Hall.
  - intros Hnin e He Hn. apply Hnin. apply list_elem_of_fmap.
    exists e.1. split; [done|]. apply list_elem_of_fmap. eauto.
Qed.

(** The outcome of a source file, by what the target holds under its
    basename. *)
Lemma classify_kind server_files p s :
  (is_Missing (classify server_files (p, s))
   ↔ ∀ e, e ∈ server_files → basename e.1 ≠ basename p)
  ∧ (is_SizeMatch (classify server_files (p, s))
     ↔ ∃ e, e ∈ server_files ∧ basename e.1 = basename p ∧ e.2 = s)
  ∧ (is_SizeMismatch (classify server_files (p, s))
     ↔ (∃ e, e ∈ server_files ∧ basename e.1 = basename p)
       ∧ ∀ e, e ∈ server_files → basename e.1 = basename p → e.2 ≠ s).
Proof.
  destruct (decide (same_name server_files (basename p) = [])) as [Hnil|Hne].
  - assert (Hcl : classify server_files (p, s) = Missing).
    { unfold classify. cbn [fst snd]. by rewrite decide_True. }
    rewrite Hcl. pose proof (proj1 (same_name_nil _ _) Hnil) as Habs.
    split_and!.
    + done.
    + split; [done|]. intros (e & He & Hn & _). by eapply Habs.
    + split; [done|]. intros [(e & He & Hn) _]. by eapply Habs.
  - assert (Hex : ∃ e, e ∈ server_files ∧ basename e.1 = basename p).
    { destruct (same_name server_files (basename p)) as [|e l] eqn:E; [done|].
      exists e. assert (He : e ∈ same_name server_files (basename p))
        by (rewrite E; apply list_elem_of_here).
      apply list_elem_of_filter in He as [? ?]. done. }
    assert (Hdec : (∃ e, e ∈ server_files
                         ∧ basename e.1 = basename p ∧ e.2 = s)
                   ∨ ¬ (∃ e, e ∈ server_files
                             ∧ basename e.1 = basename p ∧ e.2 = s)).
    { destruct (filter (λ e : string * Z, basename e.1 = basename p ∧ e.2 = s)
                  server_files) as [|e l] eqn:E.
      - right. intros (e & He & Hn & Hs).
        by eapply filter_nil_not_elem_of; [exact E| |exact He].
      - left. exists e.
        assert (He : e ∈ filter (λ e : string * Z,
                                   basename e.1 = basename p ∧ e.2 = s)
                           server_files)
          by (rewrite E; apply list_elem_of_here).
        apply list_elem_of_filter in He as [[? ?] ?]. done. }
    destruct Hdec as [Hm|Hnm].
    + rewrite (classify_size_match _ _ _ Hm). split_and!.
      * split; [done|]. intros Hall. destruct Hex as (e & He & Hn).
        by destruct (Hall e He).
      * done.
      * split; [done|]. intros [_ Hall].
        destruct Hm as (e & He & Hn & Hs). by destruct (Hall e He Hn).
    + assert (Hsizes : ∀ e, e ∈ server_files →
                            basename e.1 = basename p → e.2 ≠ s).
      { intros e He Hn Hs. apply Hnm. eauto. }
      rewrite (classify_size_mismatch _ _ _ Hex Hsizes). split_and!.
      * split; [done|]. intros Hall. destruct Hex as (e & He & Hn).
        by destruct (Hall e He).
      * split; [done|]. intros Hm. by destruct Hnm.
      * done.
Qed.

Lemma classify_Missing_iff server_files p s :
  is_Missing (classify server_files (p, s))
  ↔ ∀ e, e ∈ server_files → basename e.1 ≠ basename p.
Proof. apply classify_kind. Qed.

Lemma classify_SizeMatch_iff server_files p s :
  is_SizeMatch (classify server_files (p, s))
  ↔ ∃ e, e ∈ server_files ∧ basename e.1 = basename p ∧ e.2 = s.
Proof. apply classify_kind. Qed.

(** The value of a run of the comparison, with the counters and lists
    spelled out. *)
Lemma compare_indexes_report hard_drive_files server_files :
  ∃ report,
    value (compare_indexes hard_drive_files server_files) = Ok report
    ∧ total_hard_drive report = PyDict.len hard_drive_files
    ∧ total_server report = PyDict.len server_files
    ∧ stats report
      = reconcile server_files init_stats (sorted_items hard_drive_files).
Proof. eexists. split; [apply compare_indexes_value|done]. Qed.

(** X1 — A source file whose basename no target file has gets the
    verdict MISSING: the name index has no key for it, the line after
    its CHECKING line reports Missing, the file with its size is in
    the missing details of the report and printed in the details of
    the summary, and it is in no mismatch entry.  The missing details
    are exactly the source files without a same-named target file, in
    sorted order. *)
Theorem missing_when_name_absent hard_drive_files server_files p s :
  (p, s) ∈ PyDict.items hard_drive_files →
  (∀ e, e ∈ PyDict.items server_files → basename e.1 ≠ basename p) →
  ∃ idx report line o1 o2,
    for_each index_step PyDict.empty (PyDict.items server_files)
    = ([], Ok idx)
    ∧ PyDict.contains (basename p) idx = false
    ∧ compare_indexes hard_drive_files server_files
      = (o1 ++ checking (p, s) line ++ o2, Ok report)
    ∧ reported line = Some Missing
    ∧ (p, s) ∈ missing_file_details (stats report)
    ∧ (∀ c, (p, s, c) ∉ mismatch_file_details (stats report))
    ∧ ODetailMissing p s
      ∈ output (compare_indexes hard_drive_files server_files)
    ∧ missing_file_details (stats report)
      = filter (λ i : string * Z,
                  basename i.1 ∉ basename <$> PyDict.keys server_files)
          (sorted_items hard_drive_files).
Proof.
  intros Hin Habs. unfold PyDict.items in *.
  assert (Hcl : classify server_files (p, s) = Missing).
  { destruct (classify_kind server_files p s) as (H1 & _).
    apply H1 in Habs. by destruct (classify server_files (p, s)). }
  destruct (build_name_index server_files) as (idx & Hidx & Hname).
  destruct (checked_in_run hard_drive_files server_files (p, s) Hin)
    as (line & o1 & o2 & Hout & Hrep).
  destruct (report_spec hard_drive_files server_files)
    as (H1 & _ & _ & H4 & H5).
  assert (Hdet : (p, s) ∈ missing_file_details
                   (reconcile server_files init_stats
                      (sorted_items hard_drive_files))).
  { rewrite H4. apply list_elem_of_filter.
    split; [by rewrite Hcl|by rewrite sorted_items_perm]. }
  eexists idx, _, line, o1, o2. split_and!.
  - exact Hidx.
  - unfold PyDict.contains. rewrite (Hname (basename p)).
    rewrite decide_True; [done|]. by apply same_name_nil.
  - rewrite <-Hout. rewrite <-compare_indexes_value. apply io_eta.
  - by rewrite Hrep, Hcl.
  - exact Hdet.
  - cbn [stats]. rewrite H5. intros c (i & Hi & Hc)%list_elem_of_omap.
    destruct (classify server_files i) eqn:Hi'; simplify_eq.
    by rewrite Hcl in Hi'.
  - destruct (compare_indexes_spec hard_drive_files server_files)
      as (lines & -> & _). cbn [output fst].
    rewrite print_summary_output.
    apply elem_of_cons. right. apply elem_of_app. right.
    apply elem_of_app. right. apply elem_of_app. left.
    rewrite bool_decide_true.
    + apply elem_of_cons. right.
      apply list_elem_of_fmap. by exists (p, s).
    + rewrite H1, <-H4.
      apply list_elem_of_lookup in Hdet as [i Hi].
      apply lookup_lt_Some in Hi. lia.
  - cbn [stats]. rewrite H4. apply list_filter_iff. intros [q z].
    rewrite <-name_absent_iff. apply (classify_kind server_files q z).
Qed.

(** A file that only the hard drive has, as an instance of X1. *)
Lemma missing_witness :
  ∃ report,
    value (compare_indexes [("docs/a.txt", 100); ("b.txt", 5)]
             [("x/b.txt", 5)])
    = Ok report
    ∧ ("docs/a.txt", 100) ∈ missing_file_details (stats report).
Proof.
  destruct (missing_when_name_absent
              [("docs/a.txt", 100); ("b.txt", 5)] [("x/b.txt", 5)]
              "docs/a.txt" 100)
    as (idx & report & line & o1 & o2 & _ & _ & Hrun & _ & Hdet & _).
  - apply list_elem_of_here.
  - intros e He. unfold PyDict.items in He.
    apply elem_of_cons in He as [->|He]; [done|].
    by apply elem_of_nil in He.
  - exists report. split; [by rewrite Hrun|exact Hdet].
Defined.

(** ** Counting with [filter] *)

Section filter_counts.
Context {A : Type}.
Implicit Types (P Q : A → Prop) (l : list A).

Lemma filter_all P `{∀ x, Decision (P x)} l :
  (∀ x, x ∈ l → P x) → filter P l = l.
Proof.
  induction l as [|x l IH]; intros Hall; [done|].
  rewrite filter_cons_True by (apply Hall; left).
  f_equal. apply IH. intros y Hy. apply Hall. by right.
Qed.

Lemma filter_none P `{∀ x, Decision (P x)} l :
  (∀ x, x ∈ l → ¬ P x) → filter P l = [].
Proof.
  intros Hall. apply elem_of_nil_inv. intros x [HP Hx]%list_elem_of_filter.
  by apply (Hall x).
Qed.

Lemma length_filter_mono P Q `{∀ x, Decision (P x)} `{∀ x, Decision (Q x)} l :
  (∀ x, x ∈ l → P x → Q x) →
  (length (filter P l) ≤ length (filter Q l))%nat.
Proof.
  induction l as [|x l IH]; intros Himp; [done|].
  assert (IH' : (length (filter P l) ≤ length (filter Q l))%nat).
  { apply IH. intros y Hy. apply Himp. by right. }
  rewrite !filter_cons.
  destruct (decide (P x)) as [HP|HP].
  - rewrite decide_True by (apply Himp; [left|done]). simpl. lia.
  - destruct (decide (Q x)); simpl; lia.
Qed.

Lemma length_filter_fmap {B} (f : B → A) P `{∀ x, Decision (P x)}
    (l : list B) :
  length (filter P (f <$> l)) = length (filter (λ x, P (f x)) l).
Proof.
  induction l as [|x l IH]; [done|]. csimpl. rewrite !filter_cons.
  destruct (decide (P (f x))); simpl; by rewrite IH.
Qed.
End filter_counts.

Lemma stats_eta (st : Stats) :
  st = {| missing_files := missing_files st;
          size_mismatch_files := size_mismatch_files st;
          identical_files := identical_files st;
          missing_file_details := missing_file_details st;
          mismatch_file_details := mismatch_file_details st |}.
Proof. by destruct st. Qed.

(** The detail lists are as long as the counters say. *)
Lemma detail_lengths server_files l :
  let st := reconcile server_files init_stats l in
  length (missing_file_details st) = missing_files st
  ∧ length (mismatch_file_details st) = size_mismatch_files st.
Proof.
  intros st.
  destruct (reconcile_spec server_files l init_stats)
    as (H1 & _ & H3 & H4 & H5).
  fold st in H1, H3, H4, H5. cbn [init_stats missing_files
    size_mismatch_files missing_file_details mismatch_file_details] in *.
  rewrite H1, H3, H4. split; [by rewrite app_nil_l|].
  rewrite H5, app_nil_l. by rewrite <-mismatch_details_paths, length_fmap.
Qed.

(** The lines of the comparison loop hold no detail line. *)
Lemma checking_lines_no_detail (R : string * Z → Outcome) l lines :
  Forall2 (λ item line, reported line = Some (R item)) l lines →
  filter (λ o, is_detail_missing o) (mjoin (zip_with checking l lines)) = []
  ∧ filter (λ o, is_detail_size_diff o) (mjoin (zip_with checking l lines)) = [].
Proof.
  induction 1 as [|item line l lines Hr _ [IH1 IH2]]; [done|].
  change (mjoin (zip_with checking (item :: l) (line :: lines)))
    with (checking item line ++ mjoin (zip_with checking l lines)).
  rewrite !filter_app, IH1, IH2. unfold checking.
  by destruct line.
Qed.

(** X2 — The report keeps its detail lists and counters in step: the
    missing details have as many entries as [missing_files] counts,
    the mismatch details as many as [size_mismatch_files], and the run
    prints exactly that many MISSING and SIZE_DIFF detail lines in its
    summary (none when the counter is 0). *)
Theorem detail_lines_match_counters hard_drive_files server_files :
  ∃ report,
    value (compare_indexes hard_drive_files server_files) = Ok report
    ∧ length (missing_file_details (stats report))
      = missing_files (stats report)
    ∧ length (mismatch_file_details (stats report))
      = size_mismatch_files (stats report)
    ∧ length (filter (λ o, is_detail_missing o)
                (output (compare_indexes hard_drive_files server_files)))
      = missing_files (stats report)
    ∧ length (filter (λ o, is_detail_size_diff o)
                (output (compare_indexes hard_drive_files server_files)))
      = size_mismatch_files (stats report).
Proof.
  destruct (compare_indexes_spec hard_drive_files server_files)
    as (lines & Hrun & Hlines).
  destruct (detail_lengths server_files (sorted_items hard_drive_files))
    as [Hl1 Hl2].
  destruct (checking_lines_no_detail _ _ _ Hlines) as [Hc1 Hc2].
  eexists. rewrite Hrun. cbn [value output fst snd stats].
  split; [done|]. split; [exact Hl1|]. split; [exact Hl2|].
  set (st := reconcile server_files init_stats (sorted_items hard_drive_files))
    in *.
  rewrite print_summary_output, !filter_cons_False by (by intros ?).
  rewrite !filter_app, Hc1, Hc2. cbn [app].
  split.
  - destruct (bool_decide_reflect (0 < missing_files st)%nat) as [Hpos|Hz];
      destruct (bool_decide (0 < size_mismatch_files st)%nat);
      rewrite ?filter_cons_False by (by intros ?);
      cbn [filter list_filter app];
      rewrite ?length_app, ?length_filter_fmap;
      rewrite ?(filter_all _ (missing_file_details st))
        by (by intros [??] _);
      rewrite ?(filter_none _ (mismatch_file_details st))
        by (by intros [[??]?] _ ?);
      simpl; lia.
  - destruct (bool_decide (0 < missing_files st)%nat);
      destruct (bool_decide_reflect (0 < size_mismatch_files st)%nat)
        as [Hpos|Hz];
      rewrite ?filter_cons_False by (by intros ?);
      cbn [filter list_filter app];
      rewrite ?length_app, ?length_filter_fmap;
      rewrite ?(filter_none _ (missing_file_details st))
        by (by intros [??] _ ?);
      rewrite ?(filter_all _ (mismatch_file_details st))
        by (by intros [[??]?] _);
      simpl; lia.
Qed.

(** The counters of the report, over the source index in any order. *)
Lemma report_counts hard_drive_files server_files :
  let st := reconcile server_files init_stats (sorted_items hard_drive_files) in
  let outcome := classify server_files in
  missing_files st
  = length (filter (λ i, is_Missing (outcome i)) hard_drive_files)
  ∧ identical_files st
    = length (filter (λ i, is_SizeMatch (outcome i)) hard_drive_files)
  ∧ size_mismatch_files st
    = length (filter (λ i, is_SizeMismatch (outcome i)) hard_drive_files).
Proof.
  intros st outcome.
  destruct (report_spec hard_drive_files server_files) as (H1 & H2 & H3 & _).
  fold st in H1, H2, H3. rewrite H1, H2, H3.
  by rewrite !sorted_items_perm.
Qed.

Lemma no_mismatch_details (outcome : string * Z → Outcome) l :
  (∀ i, i ∈ l → ¬ is_SizeMismatch (outcome i)) →
  omap (λ i, match outcome i with
             | SizeMismatch c => Some (i, c)
             | _ => None
             end) l = [].
Proof.
  intros Hall. eapply fmap_nil_inv. rewrite mismatch_details_paths.
  by apply filter_none.
Qed.

(** X3 — Empty sides.  Against an empty target every source file is
    MISSING: the missing count is the number of source files, the
    missing details are the source files in sorted order, nothing is
    identical or mismatched.  With an empty source the run prints no
    CHECKING line, only the summary with all three counters 0 and no
    detail section. *)
Theorem empty_target_or_source hard_drive_files server_files :
  value (compare_indexes hard_drive_files PyDict.empty)
  = Ok {| total_hard_drive := PyDict.len hard_drive_files;
          stats := {| missing_files := PyDict.len hard_drive_files;
                      size_mismatch_files := 0;
                      identical_files := 0;
                      missing_file_details := sorted_items hard_drive_files;
                      mismatch_file_details := [] |};
          total_server := 0 |}
  ∧ compare_indexes PyDict.empty server_files
    = ([OLine (nl +:+ "3. COMPARING FILES:");
        OLine (nl +:+ str_mul "=" 80); OLine "SUMMARY:";
        OSummaryTotalHardDrive 0; OSummaryMissing 0; OSummarySizeDiff 0;
        OSummaryIdentical 0; OSummaryTotalServer (PyDict.len server_files)],
       Ok {| total_hard_drive := 0;
             stats := init_stats;
             total_server := PyDict.len server_files |}).
Proof.
  split.
  - rewrite compare_indexes_value. do 2 f_equal.
    set (l := sorted_items hard_drive_files).
    destruct (reconcile_spec PyDict.empty l init_stats)
      as (H1 & H2 & H3 & H4 & H5).
    assert (Hall : ∀ i, i ∈ l → classify PyDict.empty i = Missing) by done.
    rewrite (stats_eta (reconcile _ _ _)), H1, H2, H3, H4, H5.
    cbn [init_stats missing_files size_mismatch_files identical_files
         missing_file_details mismatch_file_details app].
    rewrite (filter_all _ l) by done.
    rewrite (filter_none (λ i, is_SizeMatch _) l) by (by intros ? _ ?).
    rewrite (filter_none (λ i, is_SizeMismatch _) l) by (by intros ? _ ?).
    rewrite no_mismatch_details by (by intros ? _ ?).
    unfold l, PyDict.len. by rewrite sorted_items_length.
  - destruct (compare_indexes_spec PyDict.empty server_files)
      as (lines & -> & Hlines).
    change (sorted_items PyDict.empty) with (@nil (string * Z)) in *.
    apply Forall2_nil_inv_l in Hlines as ->.
    rewrite print_summary_output. done.
Qed.

(** X4 — A tree compared with itself is reported identical throughout:
    no file is missing, none differs in size, the identical count is
    the number of files and both detail lists are empty; so it is for
    a whole run given the same path twice. *)
Theorem self_comparison_is_identical files :
  value (compare_indexes files files)
  = Ok {| total_hard_drive := PyDict.len files;
          stats := {| missing_files := 0;
                      size_mismatch_files := 0;
                      identical_files := PyDict.len files;
                      missing_file_details := [];
                      mismatch_file_details := [] |};
          total_server := PyDict.len files |}
  ∧ ∀ fs verbose path report,
      value (compare_directories fs verbose path path) = Ok report →
      missing_files (stats report) = 0%nat
      ∧ size_mismatch_files (stats report) = 0%nat
      ∧ identical_files (stats report) = total_hard_drive report
      ∧ total_server report = total_hard_drive report.
Proof.
  assert (Hself : ∀ d : list (string * Z),
    value (compare_indexes d d)
    = Ok {| total_hard_drive := PyDict.len d;
            stats := {| missing_files := 0; size_mismatch_files := 0;
                        identical_files := PyDict.len d;
                        missing_file_details := [];
                        mismatch_file_details := [] |};
            total_server := PyDict.len d |}).
  { intros d. rewrite compare_indexes_value. do 2 f_equal.
    set (l := sorted_items d).
    destruct (reconcile_spec d l init_stats) as (H1 & H2 & H3 & H4 & H5).
    assert (Hall : ∀ i, i ∈ l → is_SizeMatch (classify d i)).
    { intros [p s] Hi. apply (classify_kind d p s). exists (p, s).
      split; [|done]. unfold l in Hi. by rewrite sorted_items_perm in Hi. }
    rewrite (stats_eta (reconcile _ _ _)), H1, H2, H3, H4, H5.
    cbn [init_stats missing_files size_mismatch_files identical_files
         missing_file_details mismatch_file_details app].
    rewrite (filter_all (λ i, is_SizeMatch _) l) by done.
    rewrite (filter_none (λ i, is_Missing _) l).
    2:{ intros i Hi Hm. specialize (Hall i Hi).
        by destruct (classify d i). }
    rewrite (filter_none (λ i, is_SizeMismatch _) l).
    2:{ intros i Hi Hm. specialize (Hall i Hi).
        by destruct (classify d i). }
    rewrite no_mismatch_details.
    2:{ intros i Hi Hm. specialize (Hall i Hi).
        by destruct (classify d i). }
    unfold l, PyDict.len. by rewrite sorted_items_length. }
  split; [apply Hself|].
  intros fs verbose path report (h & s & Hh & Hs & Hr)%compare_directories_Ok.
  assert (h = s) as -> by congruence.
  rewrite Hself in Hr. injection Hr as <-. done.
Qed.

(** X5 — Each source file is classified on its own: the counters of
    the report over two sets of source files taken together are the
    sums of the counters over each set, and the detail lists hold the
    entries of both. *)
Theorem counters_add_over_source files1 files2 server_files :
  ∃ r r1 r2,
    value (compare_indexes (files1 ++ files2) server_files) = Ok r
    ∧ value (compare_indexes files1 server_files) = Ok r1
    ∧ value (compare_indexes files2 server_files) = Ok r2
    ∧ total_hard_drive r = (total_hard_drive r1 + total_hard_drive r2)%nat
    ∧ missing_files (stats r)
      = (missing_files (stats r1) + missing_files (stats r2))%nat
    ∧ identical_files (stats r)
      = (identical_files (stats r1) + identical_files (stats r2))%nat
    ∧ size_mismatch_files (stats r)
      = (size_mismatch_files (stats r1) + size_mismatch_files (stats r2))%nat
    ∧ missing_file_details (stats r)
      ≡ₚ missing_file_details (stats r1) ++ missing_file_details (stats r2)
    ∧ mismatch_file_details (stats r)
      ≡ₚ mismatch_file_details (stats r1) ++ mismatch_file_details (stats r2).
Proof.
  eexists _, _, _. rewrite !compare_indexes_value.
  split_and!; try done; cbn [stats total_hard_drive].
  - apply length_app.
  - destruct (report_counts (files1 ++ files2) server_files) as (-> & _).
    destruct (report_counts files1 server_files) as (-> & _).
    destruct (report_counts files2 server_files) as (-> & _).
    by rewrite filter_app, length_app.
  - destruct (report_counts (files1 ++ files2) server_files) as (_ & -> & _).
    destruct (report_counts files1 server_files) as (_ & -> & _).
    destruct (report_counts files2 server_files) as (_ & -> & _).
    by rewrite filter_app, length_app.
  - destruct (report_counts (files1 ++ files2) server_files) as (_ & _ & ->).
    destruct (report_counts files1 server_files) as (_ & _ & ->).
    destruct (report_counts files2 server_files) as (_ & _ & ->).
    by rewrite filter_app, length_app.
  - destruct (report_spec (files1 ++ files2) server_files)
      as (_ & _ & _ & -> & _).
    destruct (report_spec files1 server_files) as (_ & _ & _ & -> & _).
    destruct (report_spec files2 server_files) as (_ & _ & _ & -> & _).
    by rewrite !sorted_items_perm, filter_app.
  - destruct (report_spec (files1 ++ files2) server_files)
      as (_ & _ & _ & _ & ->).
    destruct (report_spec files1 server_files) as (_ & _ & _ & _ & ->).
    destruct (report_spec files2 server_files) as (_ & _ & _ & _ & ->).
    by rewrite !sorted_items_perm, omap_app.
Qed.

(** X6 — Files added to the target never lose a match: when every
    entry of one target index is in another, no more source files are
    MISSING against the larger one and no fewer are IDENTICAL, and a
    file IDENTICAL against the smaller one is not in the detail lists
    of the larger one. *)
Theorem more_target_files_lose_no_match
    hard_drive_files server_files server_files' :
  (∀ e, e ∈ PyDict.items server_files → e ∈ PyDict.items server_files') →
  ∃ r r',
    value (compare_indexes hard_drive_files server_files) = Ok r
    ∧ value (compare_indexes hard_drive_files server_files') = Ok r'
    ∧ (missing_files (stats r') ≤ missing_files (stats r))%nat
    ∧ (identical_files (stats r) ≤ identical_files (stats r'))%nat
    ∧ ∀ p s,
        (∃ e, e ∈ server_files ∧ basename e.1 = basename p ∧ e.2 = s) →
        ((p, s) ∉ missing_file_details (stats r'))
        ∧ (∀ c, (p, s, c) ∉ mismatch_file_details (stats r')).
Proof.
  unfold PyDict.items. intros Hsub.
  eexists _, _. rewrite !compare_indexes_value.
  split_and!; try done; cbn [stats].
  - destruct (report_counts hard_drive_files server_files) as (-> & _).
    destruct (report_counts hard_drive_files server_files') as (-> & _).
    apply length_filter_mono. intros [p s] _ Hm.
    apply classify_Missing_iff.
    pose proof (proj1 (classify_Missing_iff _ _ _) Hm) as Habs.
    intros e He. apply Habs. by apply Hsub.
  - destruct (report_counts hard_drive_files server_files) as (_ & -> & _).
    destruct (report_counts hard_drive_files server_files') as (_ & -> & _).
    apply length_filter_mono. intros [p s] _ Hm.
    apply classify_SizeMatch_iff.
    apply classify_SizeMatch_iff in Hm as (e & He & Hn & Hs).
    exists e. split; [by apply Hsub|done].
  - intros p s (e & He & Hn & Hs).
    assert (Hm : is_SizeMatch (classify server_files' (p, s))).
    { apply classify_SizeMatch_iff. exists e.
      split; [by apply Hsub|done]. }
    destruct (report_spec hard_drive_files server_files')
      as (_ & _ & _ & -> & ->).
    split.
    + intros [Hmiss _]%list_elem_of_filter.
      by destruct (classify server_files' (p, s)).
    + intros c (i & Hi & Hc)%list_elem_of_omap.
      destruct (classify server_files' i) eqn:Hi'; simplify_eq.
      by rewrite Hi' in Hm.
Qed.

(** The server of the examples with one more file, as an instance of
    X6. *)
Lemma more_target_files_witness :
  ∃ r r',
    value (compare_indexes [("a.txt", 1); ("b.txt", 2)] [("x/a.txt", 1)])
    = Ok r
    ∧ value (compare_indexes [("a.txt", 1); ("b.txt", 2)]
               [("x/a.txt", 1); ("y/b.txt", 2)])
      = Ok r'
    ∧ (missing_files (stats r') ≤ missing_files (stats r))%nat
    ∧ (identical_files (stats r) ≤ identical_files (stats r'))%nat.
Proof.
  destruct (more_target_files_lose_no_match
              [("a.txt", 1); ("b.txt", 2)] [("x/a.txt", 1)]
              [("x/a.txt", 1); ("y/b.txt", 2)])
    as (r & r' & Hr & Hr' & Hm & Hi & _).
  - intros e He. unfold PyDict.items in *.
    apply elem_of_cons in He as [->|He]; [apply list_elem_of_here|].
    by apply elem_of_nil in He.
  - exists r, r'. split_and!; assumption.
Defined.

(** The Missing and identical counters, read off the names and sizes
    alone. *)
Lemma counters_by_key hard_drive_files server_files :
  let st := reconcile server_files init_stats (sorted_items hard_drive_files) in
  let keys := match_key <$> server_files in
  missing_files st
  = length (filter (λ k : string * Z, k.1 ∉ keys.*1)
              (match_key <$> hard_drive_files))
  ∧ identical_files st
    = length (filter (λ k : string * Z, k ∈ keys)
                (match_key <$> hard_drive_files)).
Proof.
  intros st keys.
  destruct (report_counts hard_drive_files server_files) as (H1 & H2 & _).
  fold st in H1, H2. rewrite H1, H2, !length_filter_fmap. split.
  - f_equal. apply list_filter_iff. intros [p s].
    rewrite classify_Missing_iff. unfold keys, match_key. cbn [fst snd]. split.
    + intros Habs (k & Hk & (e & -> & He)%list_elem_of_fmap)%list_elem_of_fmap.
      simpl in Hk. by apply (Habs e He).
    + intros Hnin e He Hn. apply Hnin. apply list_elem_of_fmap.
      exists (basename e.1, e.2). split; [done|].
      apply list_elem_of_fmap. eauto.
  - f_equal. apply list_filter_iff. intros [p s].
    rewrite classify_SizeMatch_iff. unfold keys, match_key. cbn [fst snd].
    split.
    + intros (e & He & Hn & Hs). apply list_elem_of_fmap.
      exists e. split; [by rewrite Hn, Hs|done].
    + intros (e & [= Hn Hs] & He)%list_elem_of_fmap. eauto.
Qed.

(** X7 — The counters of the report depend on basenames and sizes
    only: two comparisons whose source indexes hold the same
    (basename, size) pairs, and whose target indexes do, count the
    same number of files, of MISSING, of IDENTICAL and of SIZE_DIFF
    outcomes, whatever the directories the files are in. *)
Theorem counters_depend_on_name_and_size
    hard_drive_files hard_drive_files' server_files server_files' :
  match_key <$> hard_drive_files ≡ₚ match_key <$> hard_drive_files' →
  match_key <$> server_files ≡ₚ match_key <$> server_files' →
  ∃ r r',
    value (compare_indexes hard_drive_files server_files) = Ok r
    ∧ value (compare_indexes hard_drive_files' server_files') = Ok r'
    ∧ total_hard_drive r = total_hard_drive r'
    ∧ total_server r = total_server r'
    ∧ missing_files (stats r) = missing_files (stats r')
    ∧ identical_files (stats r) = identical_files (stats r')
    ∧ size_mismatch_files (stats r) = size_mismatch_files (stats r').
Proof.
  intros Hhd Hsv. eexists _, _. rewrite !compare_indexes_value.
  split; [done|]. split; [done|]. cbn [stats total_hard_drive total_server].
  assert (Hlen : PyDict.len hard_drive_files = PyDict.len hard_drive_files').
  { unfold PyDict.len.
    by rewrite <-(length_fmap match_key hard_drive_files), Hhd, length_fmap. }
  assert (Hlen' : PyDict.len server_files = PyDict.len server_files').
  { unfold PyDict.len.
    by rewrite <-(length_fmap match_key server_files), Hsv, length_fmap. }
  destruct (counters_by_key hard_drive_files server_files) as [Hm Hi].
  destruct (counters_by_key hard_drive_files' server_files') as [Hm' Hi'].
  assert (Hmiss : missing_files (reconcile server_files init_stats
                                   (sorted_items hard_drive_files))
                  = missing_files (reconcile server_files' init_stats
                                     (sorted_items hard_drive_files'))).
  { rewrite Hm, Hm', Hhd. f_equal. apply list_filter_iff.
    intros k. by rewrite Hsv. }
  assert (Hid : identical_files (reconcile server_files init_stats
                                   (sorted_items hard_drive_files))
                = identical_files (reconcile server_files' init_stats
                                     (sorted_items hard_drive_files'))).
  { rewrite Hi, Hi', Hhd. f_equal. apply list_filter_iff.
    intros k. by rewrite Hsv. }
  split_and!; try done.
  pose proof (report_counts_sum hard_drive_files server_files) as Hs.
  pose proof (report_counts_sum hard_drive_files' server_files') as Hs'.
  cbn zeta in Hs, Hs'. lia.
Qed.

(** A file moved to another directory on each side, as an instance of
    X7. *)
Lemma counters_by_name_and_size_witness :
  ∃ r r',
    value (compare_indexes [("a.txt", 1); ("old/b.txt", 2)]
             [("x/a.txt", 1); ("b.txt", 3)])
    = Ok r
    ∧ value (compare_indexes [("new/b.txt", 2); ("deep/er/a.txt", 1)]
               [("y/b.txt", 3); ("a.txt", 1)])
      = Ok r'
    ∧ missing_files (stats r) = missing_files (stats r')
    ∧ identical_files (stats r) = identical_files (stats r')
    ∧ size_mismatch_files (stats r) = size_mismatch_files (stats r').
Proof.
  destruct (counters_depend_on_name_and_size
              [("a.txt", 1); ("old/b.txt", 2)]
              [("new/b.txt", 2); ("deep/er/a.txt", 1)]
              [("x/a.txt", 1); ("b.txt", 3)]
              [("y/b.txt", 3); ("a.txt", 1)])
    as (r & r' & Hr & Hr' & _ & _ & Hm & Hi & Hs).
  - apply perm_swap.
  - apply perm_swap.
  - exists r, r'. split_and!; assumption.
Defined.

(** ** The name index as a dictionary *)

Section PyDict_more.
Context {K V : Type} `{EqDecision K}.
Implicit Types (d : PyDict.t K V) (k : K) (v : V).

Lemma set_item_set_item k v v' d :
  PyDict.set_item k v (PyDict.set_item k v' d) = PyDict.set_item k v d.
Proof.
  induction d as [|[k0 v0] d IH]; simpl.
  - by rewrite decide_True.
  - destruct (decide (k = k0)) as [->|Hne]; simpl.
    + by rewrite decide_True.
    + by rewrite decide_False, IH.
Qed.

Lemma get_of_elem k v d : PyDict.wf d → (k, v) ∈ d → PyDict.get k d = Some v.
Proof.
  unfold PyDict.wf, PyDict.keys.
  induction d as [|[k0 v0] d IH]; csimpl; [by intros _ ?%elem_of_nil|].
  intros [Hnin Hnd]%NoDup_cons [[= -> ->]|Hin]%elem_of_cons.
  - by rewrite decide_True.
  - rewrite decide_False; [by apply IH|].
    intros ->. apply Hnin. apply list_elem_of_fmap. by exists (k0, v).
Qed.

Lemma elem_of_get k v d : PyDict.get k d = Some v → (k, v) ∈ d.
Proof.
  induction d as [|[k0 v0] d IH]; simpl; [done|].
  destruct (decide (k = k0)) as [->|Hne].
  - intros [= ->]. left.
  - intros Hg. right. by apply IH.
Qed.
End PyDict_more.

(** One iteration of the loop that builds the name index appends the
    entry to the list under its basename, an empty list when the
    basename is new; it raises no [KeyError]. *)
Lemma index_step_eq idx p s :
  index_step idx (p, s)
  = ([], Ok (PyDict.set_item (basename p)
               (default [] (PyDict.get (basename p) idx) ++ [(p, s)]) idx)).
Proof.
  unfold index_step, PyDict.contains, PyDict.getitem.
  destruct (PyDict.get (basename p) idx) as [entries|] eqn:Hget; cbn [negb].
  - by rewrite Hget.
  - rewrite get_set_item_eq. unfold lift. rewrite bind_ok.
    cbn [output value fst snd mret IO_ret ret app default].
    by rewrite set_item_set_item.
Qed.

Lemma index_step_entries (idx : PyDict.t string (list (string * Z))) k x :
  mjoin (PyDict.set_item k (default [] (PyDict.get k idx) ++ [x]) idx).*2
  ≡ₚ mjoin idx.*2 ++ [x].
Proof.
  induction idx as [|[k0 v0] idx IH]; csimpl; [done|].
  destruct (decide (k = k0)) as [->|Hne]; csimpl.
  - rewrite <-!(assoc_L (++)). f_equiv. apply Permutation_app_comm.
  - rewrite IH. by rewrite (assoc_L (++)).
Qed.

Lemma index_loop_partition rest : ∀ idx,
  ∃ idx', for_each index_step idx rest = ([], Ok idx')
          ∧ (PyDict.wf idx → PyDict.wf idx')
          ∧ mjoin idx'.*2 ≡ₚ mjoin idx.*2 ++ rest.
Proof.
  induction rest as [|[p s] rest IH]; intros idx.
  - exists idx. split; [done|]. split; [done|]. by rewrite app_nil_r.
  - destruct (IH (PyDict.set_item (basename p)
                    (default [] (PyDict.get (basename p) idx) ++ [(p, s)])
                    idx)) as (idx' & Hloop & Hwf & Hperm).
    exists idx'. split_and!.
    + rewrite for_each_cons, index_step_eq, bind_ok, Hloop. done.
    + intros Hidx. by apply Hwf, set_item_wf.
    + rewrite Hperm, index_step_entries. by rewrite <-(assoc_L (++)).
Qed.

(** X8 — The name index partitions the target index by basename: the
    loop returns an index with distinct keys, its keys are exactly the
    basenames that occur in the target, the list under a key is not
    empty and holds the target entries of that basename in the order
    of the target index, and the lists together hold each target entry
    once. *)
Theorem name_index_partitions_target server_files :
  ∃ idx,
    for_each index_step PyDict.empty (PyDict.items server_files)
    = ([], Ok idx)
    ∧ PyDict.wf idx
    ∧ (∀ name, name ∈ PyDict.keys idx
               ↔ ∃ e, e ∈ PyDict.items server_files ∧ basename e.1 = name)
    ∧ (∀ name entries,
         (name, entries) ∈ PyDict.items idx →
         entries ≠ [] ∧ entries = same_name server_files name)
    ∧ mjoin idx.*2 ≡ₚ PyDict.items server_files
    ∧ length (mjoin idx.*2) = PyDict.len server_files.
Proof.
  destruct (build_name_index server_files) as (idx & Hrun & Hidx).
  destruct (index_loop_partition server_files PyDict.empty)
    as (idx' & Hrun' & Hwf & Hperm).
  unfold PyDict.items in *. rewrite Hrun in Hrun'. injection Hrun' as <-.
  assert (Hwf' : PyDict.wf idx) by (apply Hwf; constructor).
  exists idx. split_and!; try done.
  - intros name. split.
    + intros Hin.
      destruct (decide (same_name server_files name = [])) as [Hnil|Hne].
      * exfalso. revert Hin. apply get_None_keys.
        by rewrite (Hidx name), decide_True.
      * destruct (same_name server_files name) as [|e l] eqn:E; [done|].
        exists e. assert (He : e ∈ same_name server_files name)
          by (rewrite E; apply list_elem_of_here).
        apply list_elem_of_filter in He as [? ?]. done.
    + intros (e & He & Hn).
      destruct (decide (name ∈ PyDict.keys idx)) as [|Hnin]; [done|].
      exfalso. apply get_None_keys in Hnin.
      rewrite (Hidx name) in Hnin.
      destruct (decide (same_name server_files name = [])) as [Hnil|]; [|done].
      by eapply filter_nil_not_elem_of; [exact Hnil|exact Hn|].
  - intros name entries Hin. apply get_of_elem in Hin; [|done].
    rewrite (Hidx name) in Hin.
    destruct (decide (same_name server_files name = [])); [done|].
    injection Hin as <-. done.
  - unfold PyDict.len. by rewrite Hperm.
Qed.

(** ** Runs that fail *)

Lemma not_elem_of_Forall {A} (x : A) l : Forall (λ y, y ≠ x) l → x ∉ l.
Proof. intros Hall Hin. by eapply Forall_forall in Hall; [|exact Hin]. Qed.

(** Finds a line that is written out in a trace. *)
Ltac find_line :=
  first
    [ apply list_elem_of_here
    | apply list_elem_of_further; find_line
    | apply elem_of_app; first [left; find_line | right; find_line] ].

Lemma Forall_output_print_on (P : Out → Prop) console o :
  P o → Forall P (output (print_on console o)).
Proof. intros. unfold print_on. destruct (console o); by repeat constructor. Qed.

(** What the lines of the first statement and those of what follows
    it, when it returns, satisfy, the lines of both satisfy. *)
Lemma Forall_output_bind_Ok {A B} (P : Out → Prop) (m : IO A) (f : A → IO B) :
  Forall P (output m) → (∀ a, value m = Ok a → Forall P (output (f a))) →
  Forall P (output (m ≫= f)).
Proof.
  intros Hm Hf. rewrite output_bind. destruct (value m) as [a|]; [|done].
  apply Forall_app; auto.
Qed.

Lemma bind_raises {A B} (m : IO A) (f : A → IO B) :
  (∀ a, value m = Ok a → ∃ e, value (f a) = Raise e) →
  ∃ e, value (m ≫= f) = Raise e.
Proof. intros Hf. rewrite value_bind. destruct (value m); eauto. Qed.

Ltac output_on_Forall :=
  repeat first
    [ apply Forall_output_bind; [|intros ?]
    | apply Forall_output_print_on
    | apply Forall_output_ret
    | apply Forall_output_lift
    | apply Forall_output_try_except; [|intros ?]
    | apply for_each_output_Forall; intros ? ?
    | match goal with
      | |- Forall _ (output (when ?c _)) => destruct c; cbn [when]
      | |- Forall _ (output (if ?c then _ else _)) => destruct c
      | |- Forall _ (output (match ?x with _ => _ end)) => destruct x
      end ].

(** The indexer prints no line of a report on any console, and
    neither of the two headings that follow the first scan. *)
Lemma scan_on_prints_no_report console fs verbose directory_path :
  Forall (λ o, is_report_line o = false
               ∧ o ≠ OLine (nl +:+ "2. SCANNING SERVER DIRECTORY:")
               ∧ o ≠ OLine (nl +:+ "3. COMPARING FILES:"))
    (output (get_all_files_recursive_on console fs verbose directory_path)).
Proof.
  unfold get_all_files_recursive_on, count_step_on, scan_step_on,
    update_progress_bar_on.
  cbn zeta.
  output_on_Forall; (split_and!; [done|intros [= H]; simpl in H; discriminate H..]).
Qed.

Lemma filter_report_scan_on console fs verbose directory_path :
  filter (λ o, is_report_line o)
    (output (get_all_files_recursive_on console fs verbose directory_path))
  = [].
Proof.
  apply filter_none. intros o Ho Hr.
  pose proof (scan_on_prints_no_report console fs verbose directory_path)
    as Hall.
  eapply Forall_forall in Hall; [|exact Ho].
  destruct Hall as [Hn _]. by rewrite Hn in Hr.
Qed.

Lemma print_bind {B} o (f : () → IO B) :
  print o ≫= f = (o :: output (f ()), value (f ())).
Proof. unfold print. by rewrite bind_ok. Qed.

(** A run that returns went through both scans and the comparison of
    their indexes, and every line of it was printed. *)
Lemma compare_directories_on_returned console fs verbose hd sv report :
  value (compare_directories_on console fs verbose hd sv) = Ok report →
  ∃ h s,
    value (get_all_files_recursive_on console fs verbose hd) = Ok h
    ∧ value (get_all_files_recursive_on console fs verbose sv) = Ok s
    ∧ value (compare_indexes h s) = Ok report
    ∧ compare_indexes_on console h s = compare_indexes h s
    ∧ output (compare_directories_on console fs verbose hd sv)
      = [OLine (nl +:+ "Comparing files between:");
         OLine ("Hard Drive: " +:+ hd);
         OLine ("Server Directory: " +:+ sv);
         OLine (str_mul "=" 80);
         OLine (nl +:+ "1. SCANNING HARD DRIVE:")]
        ++ output (get_all_files_recursive_on console fs verbose hd)
        ++ [OLine (str_mul "-" 80);
            OLine (nl +:+ "2. SCANNING SERVER DIRECTORY:")]
        ++ output (get_all_files_recursive_on console fs verbose sv)
        ++ [OLine (str_mul "=" 80)]
        ++ output (compare_indexes h s).
Proof.
  unfold compare_directories_on. intros H.
  do 5 (let Hp := fresh in
        apply value_bind_Ok_inv in H as ([] & Hp & H);
        rewrite (print_on_returns _ _ _ Hp), print_bind).
  destruct (get_all_files_recursive_on console fs verbose hd) as [o1 [h|e]];
    [|done].
  rewrite bind_ok in H |- *. cbn [value snd] in H. exists h.
  do 2 (let Hp := fresh in
        apply value_bind_Ok_inv in H as ([] & Hp & H);
        rewrite (print_on_returns _ _ _ Hp), print_bind).
  destruct (get_all_files_recursive_on console fs verbose sv) as [o2 [s|e]];
    [|done].
  rewrite bind_ok in H |- *. cbn [value snd] in H. exists s.
  apply value_bind_Ok_inv in H as ([] & Hp & H).
  rewrite ?(print_on_returns _ _ _ Hp), print_bind.
  pose proof (compare_indexes_on_returns _ _ _ _ H) as Heq.
  rewrite Heq in H |- *.
  cbn [output value fst snd app]. done.
Qed.

(** X9 — A scan that raises ends the run before anything is compared.
    On every console: when the scan of the hard drive raises, the run
    raises, the server directory is never scanned, and no verdict, no
    summary count and no detail line is printed; when the scan of the
    server directory raises, the run raises and no line of a report
    is printed.  A run that returns went through both scans and
    printed the whole summary.  (A run can still stop in the middle of
    the comparison, when the console refuses one of its lines:
    [refused_line_stops_the_comparison].) *)
Theorem failed_scan_prints_no_report console fs verbose hd sv :
  let scan1 := get_all_files_recursive_on console fs verbose hd in
  let scan2 := get_all_files_recursive_on console fs verbose sv in
  let run := compare_directories_on console fs verbose hd sv in
  (∀ e, value scan1 = Raise e →
     (∃ e', value run = Raise e')
     ∧ Forall (λ o, is_report_line o = false) (output run)
     ∧ (OLine (nl +:+ "2. SCANNING SERVER DIRECTORY:") ∉ output run)
     ∧ (OLine (nl +:+ "3. COMPARING FILES:") ∉ output run))
  ∧ (∀ e, value scan2 = Raise e →
     (∃ e', value run = Raise e')
     ∧ Forall (λ o, is_report_line o = false) (output run)
     ∧ (OLine (nl +:+ "3. COMPARING FILES:") ∉ output run))
  ∧ (∀ report, value run = Ok report →
     (∃ h s, value scan1 = Ok h ∧ value scan2 = Ok s
             ∧ value (compare_indexes h s) = Ok report)
     ∧ OLine "SUMMARY:" ∈ output run
     ∧ OSummaryTotalHardDrive (total_hard_drive report) ∈ output run
     ∧ OSummaryMissing (missing_files (stats report)) ∈ output run
     ∧ OSummarySizeDiff (size_mismatch_files (stats report)) ∈ output run
     ∧ OSummaryIdentical (identical_files (stats report)) ∈ output run
     ∧ OSummaryTotalServer (total_server report) ∈ output run).
Proof.
  intros scan1 scan2 run.
  pose proof (scan_on_prints_no_report console fs verbose hd) as H1.
  pose proof (scan_on_prints_no_report console fs verbose sv) as H2.
  fold scan1 in H1. fold scan2 in H2.
  split_and!.
  - intros e He.
    assert (Hall : Forall (λ o, is_report_line o = false
        ∧ o ≠ OLine (nl +:+ "2. SCANNING SERVER DIRECTORY:")
        ∧ o ≠ OLine (nl +:+ "3. COMPARING FILES:")) (output run)).
    { unfold run, compare_directories_on.
      do 5 (apply Forall_output_bind_Ok;
              [apply Forall_output_print_on;
               split_and!; [done|intros [= H]; simpl in H; discriminate H..]
              |intros _ _]).
      apply Forall_output_bind_Ok; [exact H1|].
      fold scan1. intros h Hh. congruence. }
    split_and!.
    + unfold run, compare_directories_on.
      do 5 (apply bind_raises; intros _ _).
      fold scan1. rewrite value_bind, He. eauto.
    + by eapply Forall_impl; [exact Hall|intros ? [? _]].
    + apply not_elem_of_Forall.
      by eapply Forall_impl; [exact Hall|intros ? (_ & ? & _)].
    + apply not_elem_of_Forall.
      by eapply Forall_impl; [exact Hall|intros ? (_ & _ & ?)].
  - intros e He.
    assert (Hall : Forall (λ o, is_report_line o = false
        ∧ o ≠ OLine (nl +:+ "3. COMPARING FILES:")) (output run)).
    { unfold run, compare_directories_on.
      do 5 (apply Forall_output_bind_Ok;
              [apply Forall_output_print_on;
               split_and!; [done|intros [= H]; simpl in H; discriminate H]
              |intros _ _]).
      apply Forall_output_bind_Ok;
        [by eapply Forall_impl; [exact H1|intros ? (? & _ & ?)]|].
      intros h _.
      do 2 (apply Forall_output_bind_Ok;
              [apply Forall_output_print_on;
               split_and!; [done|intros [= H]; simpl in H; discriminate H]
              |intros _ _]).
      apply Forall_output_bind_Ok;
        [by eapply Forall_impl; [exact H2|intros ? (? & _ & ?)]|].
      fold scan2. intros s Hs. congruence. }
    split_and!.
    + unfold run, compare_directories_on.
      do 5 (apply bind_raises; intros _ _).
      apply bind_raises; intros h _.
      do 2 (apply bind_raises; intros _ _).
      fold scan2. rewrite value_bind, He. eauto.
    + by eapply Forall_impl; [exact Hall|intros ? [? _]].
    + apply not_elem_of_Forall.
      by eapply Forall_impl; [exact Hall|intros ? (_ & ?)].
  - intros report Hrun.
    destruct (compare_directories_on_returned _ _ _ _ _ _ Hrun)
      as (h & s & Hh & Hs & Hc & _ & Hout).
    split; [by exists h, s|].
    fold run in Hout. rewrite Hout.
    rewrite compare_indexes_value in Hc. injection Hc as <-.
    cbn [stats total_hard_drive total_server].
    destruct (compare_indexes_spec h s) as (lines & -> & _).
    cbn [output fst]. rewrite print_summary_output.
    split_and!; find_line.
Qed.

(** On a console that cannot show the name of a file of the hard
    drive, the run without [--verbose] stops at the CHECKING line of
    that file, after the verdict of the file before it. *)
Lemma refused_line_stops_the_comparison :
  compare_directories_on (refusing odd_name) odd_fs false "/server" "/hd"
  = ([OLine (nl +:+ "Comparing files between:");
      OLine "Hard Drive: /server";
      OLine "Server Directory: /hd";
      OLine (str_mul "=" 80);
      OLine (nl +:+ "1. SCANNING HARD DRIVE:");
      OLine "Scanning directory: /server";
      OLine "Counting files for progress tracking...";
      ODiscovering 1; ODiscovering 2; OFoundTotal 2;
      OProgress 25 1 2; OProgress 50 2 2; ONewline; OFoundSummary 2 0;
      OLine (str_mul "-" 80);
      OLine (nl +:+ "2. SCANNING SERVER DIRECTORY:");
      OLine "Scanning directory: /hd";
      OLine "Counting files for progress tracking...";
      ODiscovering 1; ODiscovering 2; OFoundTotal 2;
      OProgress 25 1 2; OProgress 50 2 2; ONewline; OFoundSummary 2 1;
      OLine (str_mul "=" 80);
      OLine (nl +:+ "3. COMPARING FILES:");
      OLine "CHECKING: b.txt";
      OIdentical "b.txt" "b.txt" 5],
     Raise RuntimeError).
Proof. vm_compute. reflexivity. Qed.

(** ** The trace of a scan *)

(** A scan that returns has printed its headings and the count of the
    first pass, then the lines of the second pass, then its summary;
    the count is the number of entries that are files, and the summary
    gives the size of the index returned. *)
Lemma scan_output_parts fs verbose directory_path d :
  value (get_all_files_recursive fs verbose directory_path) = Ok d →
  let l := rglob fs directory_path in
  let total := length (filter is_file_item l) in
  ∃ st' pre post,
    output (get_all_files_recursive fs verbose directory_path)
    = pre ++ output (for_each (scan_step verbose total) scan_init l) ++ post
    ∧ value (for_each (scan_step verbose total) scan_init l) = Ok st'
    ∧ files_info st' = d
    ∧ Forall plain_line pre ∧ Forall plain_line post
    ∧ OFoundTotal total ∈ pre
    ∧ OFoundSummary (PyDict.len d) (size (directories_processed st')) ∈ post.
Proof.
  intros Hv l total. unfold get_all_files_recursive in *. fold l in Hv |- *.
  apply value_bind_Ok_inv in Hv as (u1 & H1 & Hv).
  rewrite (output_bind_Ok _ _ _ H1).
  apply value_bind_Ok_inv in Hv as (u2 & H2 & Hv).
  rewrite (output_bind_Ok _ _ _ H2).
  apply value_bind_Ok_inv in Hv as (n & H3 & Hv).
  rewrite (output_bind_Ok _ _ _ H3).
  assert (n = total) as ->.
  { rewrite count_loop_value in H3. destruct (first_fault l); [done|].
    injection H3 as <-. done. }
  apply value_bind_Ok_inv in Hv as (u4 & H4 & Hv).
  rewrite (output_bind_Ok _ _ _ H4).
  apply value_bind_Ok_inv in Hv as (st' & H5 & Hv).
  rewrite (output_bind_Ok _ _ _ H5).
  fold scan_init in H5 |- *.
  match goal with
  | |- context [output (for_each _ scan_init l) ++ output ?post] =>
      set (k := post) in *
  end.
  assert (Hd : files_info st' = d).
  { revert Hv. unfold k. intros Hv.
    apply value_bind_Ok_inv in Hv as (? & _ & Hv).
    apply value_bind_Ok_inv in Hv as (? & _ & Hv).
    apply value_bind_Ok_inv in Hv as (? & _ & Hv).
    cbn in Hv. by injection Hv. }
  exists st',
    (output (print (OLine ("Scanning directory: " +:+ directory_path)))
     ++ output (print (OLine "Counting files for progress tracking..."))
     ++ output (for_each count_step 0%nat l)
     ++ output (print (OFoundTotal total))),
    (output k).
  split_and!.
  - by rewrite <-!(assoc_L (++)).
  - done.
  - done.
  - repeat (apply Forall_app_2); try (by repeat constructor).
    unfold count_step. output_Forall; done.
  - unfold k. output_Forall; done.
  - cbn [output print fst]. find_line.
  - unfold k. rewrite <-Hd. clear.
    destruct verbose; cbn [negb when].
    + rewrite output_bind. cbn [value snd mret IO_ret ret output fst app].
      rewrite output_bind. cbn [value print snd output fst]. find_line.
    + rewrite output_bind. cbn [value print snd output fst app].
      rewrite output_bind. cbn [value print snd output fst]. find_line.
Qed.

(** One iteration without [--verbose]: an entry that is a file moves
    the counter on and prints the progress line, any other entry
    prints nothing. *)
Lemma scan_step_quiet total st item st' :
  value (scan_step false total st item) = Ok st' →
  (is_file_item item
   ∧ output (scan_step false total st item)
     = (if decide (total = 0%nat) then []
        else [progress_line total (S (processed_files st))])
   ∧ processed_files st' = S (processed_files st))
  ∨ (¬ is_file_item item
     ∧ output (scan_step false total st item) = []
     ∧ processed_files st' = processed_files st).
Proof.
  unfold scan_step, is_file_item, is_dir, stat_st_size, progress_line.
  unfold is_file. destruct (item_fault item) as [e|]; [done|].
  destruct (bool_decide (resolve (item_entry item) = Some Regular)).
  - destruct (item_stat item) as [size|e].
    + destruct (decide (total = 0%nat)) as [Ht|Ht] eqn:E; io_run;
        rewrite ?E; intros [= <-]; left; by rewrite ?E.
    + destruct (is_OSError e) eqn:He;
        destruct (decide (total = 0%nat)) as [Ht|Ht] eqn:E; io_run;
        rewrite ?He, ?E; try done; intros [= <-]; left; by rewrite ?E.
  - destruct (bool_decide (resolve (item_entry item) = Some Directory));
      io_run; intros [= <-]; right; done.
Qed.

(** The second pass without [--verbose] prints one progress line per
    file, numbered from the counter on. *)
Lemma scan_loop_quiet total l : ∀ st st',
  value (for_each (scan_step false total) st l) = Ok st' →
  output (for_each (scan_step false total) st l)
  = (if decide (total = 0%nat) then []
     else progress_line total
          <$> seq (S (processed_files st)) (length (filter is_file_item l)))
  ∧ processed_files st'
    = (processed_files st + length (filter is_file_item l))%nat.
Proof.
  induction l as [|item l IH]; intros st st'.
  - intros [= <-]. cbn. split; [by destruct (decide _)|lia].
  - rewrite for_each_cons. intros (st1 & H1 & H2)%value_bind_Ok_inv.
    rewrite (output_bind_Ok _ _ _ H1).
    destruct (IH _ _ H2) as [Hout Hn]. rewrite Hout, Hn, filter_cons.
    destruct (scan_step_quiet _ _ _ _ H1)
      as [(Hf & -> & ->)|(Hf & -> & ->)].
    + rewrite (decide_True (P := is_file_item item)) by done.
      cbn [length seq fmap list_fmap].
      split; [by destruct (decide (total = 0%nat))|lia].
    + rewrite (decide_False (P := is_file_item item)) by done.
      split; [done|lia].
Qed.


Lemma omap_cons_option_list {A B} (f : A → option B) x l :
  omap f (x :: l) = option_list (f x) ++ omap f l.
Proof. cbn. by destruct (f x). Qed.



(** X10 — The progress bar.  Without [--verbose], a scan that returns
    prints exactly one progress line per file found, numbered 1 to N
    out of N, where N is the count of the first pass (the files among
    the entries, the unreadable ones included); no bar is longer than
    its 50 cells, the bars never shrink, and the last one is full.
    With no file there is no progress line. *)
Theorem progress_bar_counts_every_file fs directory_path d :
  value (get_all_files_recursive fs false directory_path) = Ok d →
  let N := length (filter is_file_item (rglob fs directory_path)) in
  filter (λ o, is_progress o)
    (output (get_all_files_recursive fs false directory_path))
  = (λ k, OProgress (bar_width * k / N) k N) <$> seq 1 N
  ∧ OFoundTotal N ∈ output (get_all_files_recursive fs false directory_path)
  ∧ (∀ k, (1 ≤ k ≤ N)%nat → (bar_width * k / N ≤ bar_width)%nat)
  ∧ (∀ j k, (j ≤ k)%nat → (bar_width * j / N ≤ bar_width * k / N)%nat)
  ∧ ((0 < N)%nat → (bar_width * N / N)%nat = bar_width).
Proof.
  intros Hv N.
  destruct (scan_output_parts _ _ _ _ Hv)
    as (st' & pre & post & Hout & Hloop & _ & Hpre & Hpost & Htotal & _).
  fold N in Hout, Hloop, Htotal.
  destruct (scan_loop_quiet _ _ _ _ Hloop) as [Hlines _].
  fold N in Hlines. cbn [scan_init processed_files] in Hlines.
  split_and!.
  - rewrite Hout, !filter_app, Hlines.
    rewrite (filter_none _ pre), (filter_none _ post).
    + rewrite app_nil_r. cbn [app].
      destruct (decide (N = 0%nat)) as [->|Hne]; [done|].
      apply filter_all. by intros o (k & -> & _)%list_elem_of_fmap.
    + intros o Ho Hp. eapply Forall_forall in Hpost; [|exact Ho].
      destruct Hpost as [Hnp _]. by rewrite Hnp in Hp.
    + intros o Ho Hp. eapply Forall_forall in Hpre; [|exact Ho].
      destruct Hpre as [Hnp _]. by rewrite Hnp in Hp.
  - rewrite Hout. apply elem_of_app. by left.
  - intros k [_ Hk]. apply Nat.Div0.div_le_upper_bound. nia.
  - intros j k Hjk. apply Nat.Div0.div_le_mono. nia.
  - intros HN. apply Nat.div_mul. lia.
Qed.

(** The example tree, as an instance of X10: three files, the
    unreadable one included. *)
Lemma progress_bar_witness :
  filter (λ o, is_progress o)
    (output (get_all_files_recursive example_fs false "/hd"))
  = [OProgress 16 1 3; OProgress 33 2 3; OProgress 50 3 3].
Proof.
  destruct (progress_bar_counts_every_file example_fs "/hd"
              [("b.txt", 5); ("sub/a.txt", 100)])
    as (Hlines & _).
  - vm_compute. reflexivity.
  - rewrite Hlines. vm_compute. reflexivity.
Defined.



(** Among the entries a returning scan went through, the files are
    those recorded and those skipped. *)
Lemma recorded_or_skipped l :
  Forall scannable l →
  (length (omap recorded l) + length (omap skipped l))%nat
  = length (filter is_file_item l).
Proof.
  induction 1 as [|item l [Hfault Hstat] _ IH]; [done|].
  rewrite filter_cons, !omap_cons_option_list, !length_app.
  unfold recorded at 1, skipped at 1.
  destruct (decide (is_file_item item)) as [Hf|Hf]; unfold is_file_item in Hf.
  - rewrite Hf. specialize (Hstat Hf).
    destruct (item_stat item) as [size|e]; [simpl; lia|].
    rewrite Hstat. simpl. lia.
  - destruct (is_file item) as [[]|e]; [done|simpl; lia..].
Qed.

(** X12 — The two counts of a scan.  A scan that returns, on a
    traversal that yields each path once, prints as "total files to
    process" the number N of entries that are files and as "Found"
    the size of the index it returns; the index has one key per file
    whose size could be read, so its size and the number of skipped
    files add up to N, and the index never has more entries than N. *)
Theorem index_size_and_file_count fs verbose directory_path d :
  value (get_all_files_recursive fs verbose directory_path) = Ok d →
  NoDup (item_rel <$> rglob fs directory_path) →
  let l := rglob fs directory_path in
  let N := length (filter is_file_item l) in
  let out := output (get_all_files_recursive fs verbose directory_path) in
  OFoundTotal N ∈ out
  ∧ (∃ dirs, OFoundSummary (PyDict.len d) dirs ∈ out)
  ∧ PyDict.keys d = (omap recorded l).*1
  ∧ (PyDict.len d + length (omap skipped l))%nat = N
  ∧ (PyDict.len d ≤ N)%nat
  ∧ (PyDict.len d = N ↔ omap skipped l = []).
Proof.
  intros Hv Hnd l N out.
  destruct (scan_output_parts _ _ _ _ Hv)
    as (st' & pre & post & Hout & _ & _ & _ & _ & Htotal & Hsum).
  assert (Hres : scan_result l = Ok d)
    by (unfold l; by rewrite <-(scan_value fs verbose directory_path)).
  assert (Hd : d = omap recorded l) by by apply scan_result_fresh.
  assert (Hlen : (PyDict.len d + length (omap skipped l))%nat = N).
  { unfold PyDict.len. rewrite Hd. apply recorded_or_skipped.
    apply scan_result_Ok_iff. eauto. }
  split_and!.
  - unfold out. rewrite Hout. apply elem_of_app. by left.
  - eexists. unfold out. rewrite Hout. apply elem_of_app. right.
    apply elem_of_app. right. exact Hsum.
  - by rewrite Hd at 1.
  - exact Hlen.
  - lia.
  - split.
    + intros E. apply length_zero_iff_nil. lia.
    + intros E. rewrite E in Hlen. simpl in Hlen. lia.
Qed.

(** The example tree, as an instance of X12: three files counted, two
    found, one skipped. *)
Lemma index_size_witness :
  OFoundTotal 3 ∈ output (get_all_files_recursive example_fs false "/hd")
  ∧ (2 + length (omap skipped (rglob example_fs "/hd")))%nat = 3%nat.
Proof.
  destruct (index_size_and_file_count example_fs false "/hd"
              [("b.txt", 5); ("sub/a.txt", 100)])
    as (Ht & _ & _ & Hlen & _).
  - vm_compute. reflexivity.
  - apply (bool_decide_unpack (NoDup _)). vm_compute. exact I.
  - split; [exact Ht|exact Hlen].
Defined.

(** ** The comparison, line by line *)

Lemma check_step_line server_files idx st item :
  name_index_of server_files idx →
  output (check_step idx st item)
  = checking item (verdict_line server_files item).
Proof.
  intros Hidx. destruct item as [p s].
  unfold check_step, verdict_line, classify, checking,
    PyDict.contains, PyDict.getitem.
  cbn [fst snd]. rewrite (Hidx (basename p)).
  unfold print, lift, mret, IO_ret, ret. rewrite bind_ok.
  destruct (decide (same_name server_files (basename p) = [])) as [Hnil|Hcons].
  - cbn [negb]. by rewrite bind_ok.
  - cbn [negb]. rewrite bind_ok. cbn [output value fst snd].
    set (cands := same_name server_files (basename p)) in *.
    set (m := filter (λ entry : string * Z, entry.2 = s) cands).
    destruct (decide (m = [])) as [Hmnil|Hmcons].
    + rewrite bool_decide_false by (by intros H; apply H).
      by rewrite !bind_ok.
    + rewrite bool_decide_true by done.
      destruct m as [|e [|e' m']]; [done| |].
      * rewrite bool_decide_true by done.
        unfold list_getitem. cbn [lookup list_lookup].
        by rewrite !bind_ok.
      * rewrite bool_decide_false by done. by rewrite !bind_ok.
Qed.

Lemma check_loop_lines server_files idx :
  name_index_of server_files idx →
  ∀ l st,
    output (for_each (check_step idx) st l)
    = l ≫= λ item, checking item (verdict_line server_files item).
Proof.
  intros Hidx. induction l as [|item l IH]; intros st; [done|].
  destruct (check_step_spec server_files idx st item Hidx) as (line & Hs & _).
  rewrite for_each_cons, output_bind.
  rewrite (check_step_line server_files) by done.
  rewrite Hs. cbn [value snd]. by rewrite IH.
Qed.

(** X13 — The trace of the comparison, line by line: after its
    heading the run prints, for each source file in sorted order, the
    CHECKING line with the file's path and then one verdict line,
    which carries the basename and the size on the hard drive:
    MISSING; IDENTICAL with the one matching server path when exactly
    one target file of that name has the size, with the list of all
    matching paths in the order of the target index when several
    have; SIZE_DIFF with all same-named server instances.  The
    summary follows. *)
Theorem comparison_trace hard_drive_files server_files :
  output (compare_indexes hard_drive_files server_files)
  = OLine (nl +:+ "3. COMPARING FILES:")
    :: (sorted_items (PyDict.items hard_drive_files)
        ≫= λ item, [OLine ("CHECKING: " +:+ item.1);
                    verdict_line server_files item])
    ++ output (print_summary hard_drive_files server_files
                 (reconcile server_files init_stats
                    (sorted_items (PyDict.items hard_drive_files))))
  ∧ (∀ p s,
       let matches :=
         filter (λ e : string * Z, basename e.1 = basename p ∧ e.2 = s)
           server_files in
       (length matches = 1%nat →
        ∃ q, matches = [(q, s)]
             ∧ verdict_line server_files (p, s) = OIdentical (basename p) q s)
       ∧ ((1 < length matches)%nat →
          verdict_line server_files (p, s)
          = OIdenticalMulti (basename p) matches.*1 s)
       ∧ (matches = [] →
          verdict_line server_files (p, s) = OMissing (basename p) s
          ∨ verdict_line server_files (p, s)
            = OSizeDiff (basename p) s (same_name server_files (basename p)))).
Proof.
  split.
  - destruct (build_name_index server_files) as (idx & Hbuild & Hidx).
    destruct (compare_indexes_spec hard_drive_files server_files)
      as (lines & Hrun & _).
    pose proof (check_loop_lines server_files idx Hidx
                  (sorted_items hard_drive_files) init_stats) as Hlines.
    unfold compare_indexes, PyDict.items in *. unfold print at 1.
    rewrite bind_ok, Hbuild, bind_ok. cbn [output value fst snd app].
    destruct (check_loop_spec server_files idx Hidx
                (sorted_items hard_drive_files) init_stats)
      as (lines' & Hloop & _).
    rewrite output_bind, Hlines, Hloop. cbn [value snd].
    rewrite output_bind, print_summary_value.
    cbn [output fst mret IO_ret ret]. by rewrite app_nil_r.
  - intros p s matches.
    assert (Hm : ∀ e, e ∈ matches →
                 e ∈ server_files ∧ basename e.1 = basename p ∧ e.2 = s).
    { intros e [[? ?] ?]%list_elem_of_filter. done. }
    split_and!.
    + intros Hlen. destruct matches as [|[q z] [|??]] eqn:E; try done.
      destruct (Hm (q, z)) as (Hin & Hn & Hz); [left|]. simpl in Hz. subst z.
      exists q. split; [done|].
      unfold verdict_line. rewrite classify_size_match by eauto.
      fold matches. by rewrite E.
    + intros Hlen. destruct matches as [|e [|e' m]] eqn:E;
        [simpl in Hlen; lia..|].
      destruct (Hm e) as (Hin & Hn & Hz); [left|].
      unfold verdict_line. rewrite classify_size_match by eauto.
      fold matches. by rewrite E.
    + intros Hnil. unfold verdict_line, classify. cbn [fst snd].
      destruct (decide (same_name server_files (basename p) = []));
        [by left|right].
      unfold same_name. rewrite list_filter_filter.
      rewrite decide_True; [done|].
      rewrite <-Hnil. unfold matches. apply list_filter_iff. tauto.
Qed.

(** ** The report and the verbose flag *)

(** X14 — [--verbose] does not change the report.  For the same file
    system and the same two paths, a run with the flag and a run
    without it, each on a console of its own, return the same report
    and print the same report lines (verdicts, summary counts, detail
    lines) in the same order, whenever both return.  (The flag can
    make the run raise where the run without it returns:
    [verbose_run_raises_where_quiet_returns].) *)
Theorem verbose_keeps_report console1 console2 fs hd sv report1 report2 :
  value (compare_directories_on console1 fs true hd sv) = Ok report1 →
  value (compare_directories_on console2 fs false hd sv) = Ok report2 →
  report1 = report2
  ∧ filter (λ o, is_report_line o)
      (output (compare_directories_on console1 fs true hd sv))
    = filter (λ o, is_report_line o)
        (output (compare_directories_on console2 fs false hd sv)).
Proof.
  intros (h1 & s1 & Hh1 & Hs1 & Hc1 & _ & ->)%compare_directories_on_returned
    (h2 & s2 & Hh2 & Hs2 & Hc2 & _ & ->)%compare_directories_on_returned.
  apply scan_on_value in Hh1, Hh2, Hs1, Hs2.
  assert (h1 = h2) as -> by congruence.
  assert (s1 = s2) as -> by congruence.
  split; [congruence|].
  by rewrite !filter_app, !filter_report_scan_on.
Qed.

(** The two trees of the example, compared with [--verbose] on a
    console that takes every line and without it on one that cannot
    show the odd name, as an instance of X14. *)
Lemma verbose_keeps_report_witness :
  filter (λ o, is_report_line o)
    (output (compare_directories_on accepting odd_fs true "/hd" "/server"))
  = filter (λ o, is_report_line o)
      (output (compare_directories_on (refusing odd_name) odd_fs false
                 "/hd" "/server")).
Proof.
  eapply (verbose_keeps_report accepting (refusing odd_name) odd_fs
            "/hd" "/server"); vm_compute; reflexivity.
Defined.

(** With the odd name on the server side only, the run without
    [--verbose] returns, having printed its report, and the run with
    the flag raises in the scan of the server directory. *)
Lemma verbose_run_raises_where_quiet_returns :
  value (compare_directories_on (refusing odd_name) odd_fs true "/hd" "/server")
  = Raise RuntimeError
  ∧ value (compare_directories_on (refusing odd_name) odd_fs false
             "/hd" "/server")
    = Ok {| total_hard_drive := 2;
            stats := {| missing_files := 1; size_mismatch_files := 0;
                        identical_files := 1;
                        missing_file_details := [("sub/a.txt", 100)];
                        mismatch_file_details := [] |};
            total_server := 2 |}.
Proof. split; vm_compute; reflexivity. Qed.

(** X15 — A run that returns on a console, whatever lines the console
    refuses, is the run with every line printed as far as its result
    goes: that run returns the same report, from the same two indexes,
    the comparison has printed the same trace, and the report lines of
    the two runs are the same.  What is proved of the runs with every
    line printed holds of every run that returns. *)
Theorem returning_run_is_the_printed_run console fs verbose hd sv report :
  value (compare_directories_on console fs verbose hd sv) = Ok report →
  value (compare_directories fs verbose hd sv) = Ok report
  ∧ (∃ h s,
       value (get_all_files_recursive_on console fs verbose hd) = Ok h
       ∧ value (get_all_files_recursive fs verbose hd) = Ok h
       ∧ value (get_all_files_recursive_on console fs verbose sv) = Ok s
       ∧ value (get_all_files_recursive fs verbose sv) = Ok s
       ∧ compare_indexes_on console h s = compare_indexes h s)
  ∧ filter (λ o, is_report_line o)
      (output (compare_directories_on console fs verbose hd sv))
    = filter (λ o, is_report_line o)
        (output (compare_directories fs verbose hd sv)).
Proof.
  intros Hrun.
  destruct (compare_directories_on_returned _ _ _ _ _ _ Hrun)
    as (h & s & Hh & Hs & Hc & Heq & Hout).
  pose proof (get_all_files_recursive_on_returns _ _ _ _ _ Hh) as Hh'.
  pose proof (get_all_files_recursive_on_returns _ _ _ _ _ Hs) as Hs'.
  assert (Hideal : value (compare_directories fs verbose hd sv) = Ok report).
  { unfold compare_directories. value_steps. rewrite Hh'. value_steps.
    rewrite Hs'. by value_steps. }
  split_and!; [done|by exists h, s|].
  rewrite <-compare_directories_on_accepting in Hideal |- *.
  destruct (compare_directories_on_returned _ _ _ _ _ _ Hideal)
    as (h' & s' & Hh2 & Hs2 & _ & _ & Hout').
  rewrite get_all_files_recursive_on_accepting in Hh2, Hs2.
  assert (h' = h) as -> by congruence.
  assert (s' = s) as -> by congruence.
  rewrite Hout, Hout'. by rewrite !filter_app, !filter_report_scan_on.
Qed.

(** The run without [--verbose] of the example, on the console that
    cannot show the odd name, as an instance of X15. *)
Lemma returning_run_witness :
  value (compare_directories odd_fs false "/hd" "/server")
  = Ok {| total_hard_drive := 2;
          stats := {| missing_files := 1; size_mismatch_files := 0;
                      identical_files := 1;
                      missing_file_details := [("sub/a.txt", 100)];
                      mismatch_file_details := [] |};
          total_server := 2 |}.
Proof.
  eapply (returning_run_is_the_printed_run (refusing odd_name) odd_fs false
            "/hd" "/server").
  vm_compute. reflexivity.
Defined.
